(** * prodsim.adapters.adapter: configuration loading and referential checks

    A shallow embedding of [src/prodsim/adapters/adapter.py]: the pydantic
    model [Adapter] with its per-item validators, and [JsonAdapter] with
    [read_data] and [get_dict_object_of_adapter].

    The adapter object is mutable and its methods raise; both are explicit
    here: a method is a function from the adapter before the call to an
    outcome (an exception or a value) and the adapter after the call.

    Left out: [load_json] and [write_data], which only move the document
    between a file and memory.
    [create_typed_object_from_configuration_data], which [read_data] does
    not call, comes after the adapter, with the record update it needs as a
    parameter. *)

From Stdlib Require Import ZArith QArith.
From stdpp Require Import gmap strings list.

Local Open Scope string_scope.
Local Open Scope list_scope.

(** ** The entity classes of [prodsim.data_structures]

    [adapter.py] imports the entity classes and touches them only through
    [parse_obj_as], [.dict()], the attribute [ID] and the reference
    attributes below.  The classes themselves are taken as a parameter. *)

(** What [adapter.py] uses of a pydantic model class [T], over decoded JSON
    records [Raw]: [obj.ID], [parse_obj_as(T, values)] (which raises a
    pydantic error of type [E] on a malformed record) and [obj.dict()]. *)
Class Model (Raw E T : Type) := {
  ID : T → string;
  parse_obj_as : Raw → E + T;
  dict : T → Raw;
}.
Arguments ID {Raw E T _} _ : assert.
Arguments parse_obj_as {Raw E} T {_} _ : assert.
Arguments dict {Raw E T _} _ : assert.

Class DataStructures := {
  (** one decoded JSON record, and the error of a failed [parse_obj_as] *)
  Raw : Type;
  DecodeError : Type;
  TIME_MODEL_DATA : Type;
  STATE_DATA_UNION : Type;
  PROCESS_DATA_UNION : Type;
  QueueData : Type;
  RESOURCE_DATA_UNION : Type;
  MaterialData : Type;
  SinkData : Type;
  SourceData : Type;
  time_model_model :: Model Raw DecodeError TIME_MODEL_DATA;
  state_model :: Model Raw DecodeError STATE_DATA_UNION;
  process_model :: Model Raw DecodeError PROCESS_DATA_UNION;
  queue_model :: Model Raw DecodeError QueueData;
  resource_model :: Model Raw DecodeError RESOURCE_DATA_UNION;
  material_model :: Model Raw DecodeError MaterialData;
  sink_model :: Model Raw DecodeError SinkData;
  source_model :: Model Raw DecodeError SourceData;
  (** [state.time_model_id], [process.time_model_id] *)
  state_time_model_id : STATE_DATA_UNION → string;
  process_time_model_id : PROCESS_DATA_UNION → string;
  (** [resource.processes], [resource.states] *)
  resource_processes : RESOURCE_DATA_UNION → list string;
  resource_states : RESOURCE_DATA_UNION → list string;
  (** [Some (resource.input_queues, resource.output_queues)] exactly when
      [isinstance(resource, resource_data.ProductionResourceData)] *)
  production_queues : RESOURCE_DATA_UNION → option (list string * list string);
  (** [material.transport_process]; [material.processes] is [Some l] exactly
      when [isinstance(material.processes, list)] *)
  material_transport_process : MaterialData → string;
  material_processes : MaterialData → option (list string);
  (** [sink.material_type], [sink.input_queues] *)
  sink_material_type : SinkData → string;
  sink_input_queues : SinkData → list string;
  (** [source.time_model_id], [source.material_type], [source.output_queues] *)
  source_time_model_id : SourceData → string;
  source_material_type : SourceData → string;
  source_output_queues : SourceData → list string;
}.

(** [get_set_of_IDs]: [set([obj.ID for obj in list_of_objects])]. *)
Definition get_set_of_IDs {Raw E T} `{!Model Raw E T}
    (list_of_objects : list T) : gset string :=
  list_to_set (ID <$> list_of_objects).

(** The [ValueError] a validator raises.  Every message in [adapter.py] is
    the same f-string,
    "The {ref_name} {ref} of {owner_kind} {owner_ID} is not a valid
     {valid_kind} of {valid_IDs}."
    so the error is kept as the six parts of that sentence. *)
Record ValueError := {
  ref_name : string;
  ref : string;
  owner_kind : string;
  owner_ID : string;
  valid_kind : string;
  valid_IDs : gset string;
}.

(** [for x in l: if x not in ids: raise ...]: the entry the loop raises on. *)
Fixpoint first_not_in (l : list string) (ids : gset string) : option string :=
  match l with
  | [] => None
  | x :: l' => if decide (x ∈ ids) then first_not_in l' ids else Some x
  end.

(** pydantic applies an [each_item] validator to the items in order and
    gathers the items' errors with their positions. *)
Fixpoint validate_each {T} (check : T → ValueError + T) (i : nat) (v : list T)
    : list (nat * ValueError) * list T :=
  match v with
  | [] => ([], [])
  | x :: v' =>
      let '(errors, result) := validate_each check (S i) v' in
      match check x with
      | inl e => ((i, e) :: errors, result)
      | inr r => (errors, r :: result)
      end
  end.

Section Adapter.
Context `{ds : DataStructures}.

(** ** class Adapter(ABC, BaseModel) *)

Record Adapter := {
  valid_configuration : bool;
  reconfiguration_cost : Q;
  time_model_data : list TIME_MODEL_DATA;
  state_data : list STATE_DATA_UNION;
  process_data : list PROCESS_DATA_UNION;
  queue_data : list QueueData;
  resource_data : list RESOURCE_DATA_UNION;
  material_data : list MaterialData;
  sink_data : list SinkData;
  source_data : list SourceData;
  seed : Z;
}.

(** The field defaults of the class: what [JsonAdapter()] holds. *)
Definition JsonAdapter : Adapter := {|
  valid_configuration := true;
  reconfiguration_cost := 0%Q;
  time_model_data := [];
  state_data := [];
  process_data := [];
  queue_data := [];
  resource_data := [];
  material_data := [];
  sink_data := [];
  source_data := [];
  seed := 21;
|}.

(** ** The validators *)

Definition check_states (values : Adapter) (state : STATE_DATA_UNION)
    : ValueError + STATE_DATA_UNION :=
  let time_models := get_set_of_IDs (time_model_data values) in
  if decide (state_time_model_id state ∉ time_models) then
    inl {| ref_name := "time model"; ref := state_time_model_id state;
           owner_kind := "state"; owner_ID := ID state;
           valid_kind := "time model"; valid_IDs := time_models |}
  else inr state.

Definition check_processes (values : Adapter) (process : PROCESS_DATA_UNION)
    : ValueError + PROCESS_DATA_UNION :=
  let time_models := get_set_of_IDs (time_model_data values) in
  if decide (process_time_model_id process ∉ time_models) then
    inl {| ref_name := "time model"; ref := process_time_model_id process;
           owner_kind := "process"; owner_ID := ID process;
           valid_kind := "time model"; valid_IDs := time_models |}
  else inr process.

Definition check_resources (values : Adapter) (resource : RESOURCE_DATA_UNION)
    : ValueError + RESOURCE_DATA_UNION :=
  let processes := get_set_of_IDs (process_data values) in
  match first_not_in (resource_processes resource) processes with
  | Some process =>
      inl {| ref_name := "process"; ref := process;
             owner_kind := "resource"; owner_ID := ID resource;
             valid_kind := "process"; valid_IDs := processes |}
  | None =>
  let states := get_set_of_IDs (state_data values) in
  match first_not_in (resource_states resource) states with
  | Some state =>
      inl {| ref_name := "state"; ref := state;
             owner_kind := "resource"; owner_ID := ID resource;
             valid_kind := "state"; valid_IDs := states |}
  | None =>
  match production_queues resource with
  | Some (input_queues, output_queues) =>
      let queues := get_set_of_IDs (queue_data values) in
      match first_not_in (input_queues ++ output_queues) queues with
      | Some queue =>
          inl {| ref_name := "queue"; ref := queue;
                 owner_kind := "resource"; owner_ID := ID resource;
                 valid_kind := "queue"; valid_IDs := queues |}
      | None => inr resource
      end
  | None => inr resource
  end end end.

Definition check_materials (values : Adapter) (material : MaterialData)
    : ValueError + MaterialData :=
  let processes := get_set_of_IDs (process_data values) in
  if decide (¬ material_transport_process material ∈ processes) then
    inl {| ref_name := "transport process";
           ref := material_transport_process material;
           owner_kind := "material"; owner_ID := ID material;
           valid_kind := "process"; valid_IDs := processes |}
  else
  match material_processes material with
  | Some l =>
      match first_not_in l processes with
      | Some process =>
          inl {| ref_name := "process"; ref := process;
                 owner_kind := "material"; owner_ID := ID material;
                 valid_kind := "process"; valid_IDs := processes |}
      | None => inr material
      end
  | None => inr material
  end.

Definition check_sinks (values : Adapter) (sink : SinkData)
    : ValueError + SinkData :=
  let materials := get_set_of_IDs (material_data values) in
  if decide (sink_material_type sink ∉ materials) then
    inl {| ref_name := "material type"; ref := sink_material_type sink;
           owner_kind := "sink"; owner_ID := ID sink;
           valid_kind := "material"; valid_IDs := materials |}
  else
  let queues := get_set_of_IDs (queue_data values) in
  match first_not_in (sink_input_queues sink) queues with
  | Some q =>
      inl {| ref_name := "queue"; ref := q;
             owner_kind := "sink"; owner_ID := ID sink;
             valid_kind := "queue"; valid_IDs := queues |}
  | None => inr sink
  end.

Definition check_sources (values : Adapter) (source : SourceData)
    : ValueError + SourceData :=
  let time_models := get_set_of_IDs (time_model_data values) in
  if decide (source_time_model_id source ∉ time_models) then
    inl {| ref_name := "time model"; ref := source_time_model_id source;
           owner_kind := "source"; owner_ID := ID source;
           valid_kind := "time model"; valid_IDs := time_models |}
  else
  let materials := get_set_of_IDs (material_data values) in
  if decide (source_material_type source ∉ materials) then
    inl {| ref_name := "material type"; ref := source_material_type source;
           owner_kind := "source"; owner_ID := ID source;
           valid_kind := "material"; valid_IDs := materials |}
  else
  let queues := get_set_of_IDs (queue_data values) in
  match first_not_in (source_output_queues source) queues with
  | Some q =>
      inl {| ref_name := "queue"; ref := q;
             owner_kind := "source"; owner_ID := ID source;
             valid_kind := "queue"; valid_IDs := queues |}
  | None => inr source
  end.

(** ** Exceptions and methods

    What [read_data] and an assignment to a field can raise: the [KeyError]
    of [data[key]] on an absent key, the pydantic error of [parse_obj_as] on
    a malformed record, and the pydantic [ValidationError] of an assignment,
    which carries the assigned field and, per rejected item, its position
    and the validator's [ValueError]. *)
Inductive Exception :=
  | KeyError (key : string)
  | ParseError (e : DecodeError)
  | ValidationError (loc : string) (errors : list (nat * ValueError)).

(** A method of the adapter: the outcome and the adapter after the call. *)
Definition M (A : Type) : Type := Adapter → (Exception + A) * Adapter.

Definition ret {A} (x : A) : M A := λ self, (inr x, self).

Definition bind {A B} (c : M A) (k : A → M B) : M B :=
  λ self,
    match c self with
    | (inl e, self') => (inl e, self')
    | (inr x, self') => k x self'
    end.

(** An expression that may raise but does not touch the adapter. *)
Definition eval {A} (r : Exception + A) : M A := λ self, (r, self).

Notation "x <- c ;; k" := (bind c (λ x, k))
  (at level 100, c at next level, right associativity).
Notation "c ;;; k" := (bind c (λ _, k))
  (at level 100, right associativity).

(** *** Assignment under [Config.validate_assignment]

    [self.name = value] validates [value] with the validators of field
    [name], which read the other fields of [self]; only when no item is
    rejected is the field replaced, and a rejected assignment leaves the
    adapter untouched.  Fields without a validator of their own take any
    value of their type.  The values assigned here are lists of entities of
    the field's type already, so pydantic's type validation returns them as
    they are and only the validators of [Adapter] can reject an item. *)
Definition validated_setattr {T} (name : string)
    (check : Adapter → T → ValueError + T) (set : list T → Adapter → Adapter)
    (value : list T) : M unit :=
  λ self,
    match validate_each (check self) 0 value with
    | ([], result) => (inr tt, set result self)
    | (errors, _) => (inl (ValidationError name errors), self)
    end.

Definition plain_setattr {V} (set : V → Adapter → Adapter) (value : V) : M unit :=
  λ self, (inr tt, set value self).

Definition with_seed (v : Z) (a : Adapter) : Adapter :=
  {| valid_configuration := valid_configuration a;
     reconfiguration_cost := reconfiguration_cost a;
     time_model_data := time_model_data a; state_data := state_data a;
     process_data := process_data a; queue_data := queue_data a;
     resource_data := resource_data a; material_data := material_data a;
     sink_data := sink_data a; source_data := source_data a; seed := v |}.

Definition with_time_model_data (v : list TIME_MODEL_DATA) (a : Adapter) : Adapter :=
  {| valid_configuration := valid_configuration a;
     reconfiguration_cost := reconfiguration_cost a;
     time_model_data := v; state_data := state_data a;
     process_data := process_data a; queue_data := queue_data a;
     resource_data := resource_data a; material_data := material_data a;
     sink_data := sink_data a; source_data := source_data a; seed := seed a |}.

Definition with_state_data (v : list STATE_DATA_UNION) (a : Adapter) : Adapter :=
  {| valid_configuration := valid_configuration a;
     reconfiguration_cost := reconfiguration_cost a;
     time_model_data := time_model_data a; state_data := v;
     process_data := process_data a; queue_data := queue_data a;
     resource_data := resource_data a; material_data := material_data a;
     sink_data := sink_data a; source_data := source_data a; seed := seed a |}.

Definition with_process_data (v : list PROCESS_DATA_UNION) (a : Adapter) : Adapter :=
  {| valid_configuration := valid_configuration a;
     reconfiguration_cost := reconfiguration_cost a;
     time_model_data := time_model_data a; state_data := state_data a;
     process_data := v; queue_data := queue_data a;
     resource_data := resource_data a; material_data := material_data a;
     sink_data := sink_data a; source_data := source_data a; seed := seed a |}.

Definition with_queue_data (v : list QueueData) (a : Adapter) : Adapter :=
  {| valid_configuration := valid_configuration a;
     reconfiguration_cost := reconfiguration_cost a;
     time_model_data := time_model_data a; state_data := state_data a;
     process_data := process_data a; queue_data := v;
     resource_data := resource_data a; material_data := material_data a;
     sink_data := sink_data a; source_data := source_data a; seed := seed a |}.

Definition with_resource_data (v : list RESOURCE_DATA_UNION) (a : Adapter) : Adapter :=
  {| valid_configuration := valid_configuration a;
     reconfiguration_cost := reconfiguration_cost a;
     time_model_data := time_model_data a; state_data := state_data a;
     process_data := process_data a; queue_data := queue_data a;
     resource_data := v; material_data := material_data a;
     sink_data := sink_data a; source_data := source_data a; seed := seed a |}.

Definition with_material_data (v : list MaterialData) (a : Adapter) : Adapter :=
  {| valid_configuration := valid_configuration a;
     reconfiguration_cost := reconfiguration_cost a;
     time_model_data := time_model_data a; state_data := state_data a;
     process_data := process_data a; queue_data := queue_data a;
     resource_data := resource_data a; material_data := v;
     sink_data := sink_data a; source_data := source_data a; seed := seed a |}.

Definition with_sink_data (v : list SinkData) (a : Adapter) : Adapter :=
  {| valid_configuration := valid_configuration a;
     reconfiguration_cost := reconfiguration_cost a;
     time_model_data := time_model_data a; state_data := state_data a;
     process_data := process_data a; queue_data := queue_data a;
     resource_data := resource_data a; material_data := material_data a;
     sink_data := v; source_data := source_data a; seed := seed a |}.

Definition with_source_data (v : list SourceData) (a : Adapter) : Adapter :=
  {| valid_configuration := valid_configuration a;
     reconfiguration_cost := reconfiguration_cost a;
     time_model_data := time_model_data a; state_data := state_data a;
     process_data := process_data a; queue_data := queue_data a;
     resource_data := resource_data a; material_data := material_data a;
     sink_data := sink_data a; source_data := v; seed := seed a |}.

(** [self.seed = v], [self.time_model_data = v], ... *)
Definition set_seed : Z → M unit := plain_setattr with_seed.
Definition set_time_model_data : list TIME_MODEL_DATA → M unit :=
  plain_setattr with_time_model_data.
Definition set_state_data : list STATE_DATA_UNION → M unit :=
  validated_setattr "state_data" check_states with_state_data.
Definition set_process_data : list PROCESS_DATA_UNION → M unit :=
  validated_setattr "process_data" check_processes with_process_data.
Definition set_queue_data : list QueueData → M unit :=
  plain_setattr with_queue_data.
Definition set_resource_data : list RESOURCE_DATA_UNION → M unit :=
  validated_setattr "resource_data" check_resources with_resource_data.
Definition set_material_data : list MaterialData → M unit :=
  validated_setattr "material_data" check_materials with_material_data.
Definition set_sink_data : list SinkData → M unit :=
  validated_setattr "sink_data" check_sinks with_sink_data.
Definition set_source_data : list SourceData → M unit :=
  validated_setattr "source_data" check_sources with_source_data.

(** ** class JsonAdapter(Adapter) *)

(** The document [load_json] returns: a JSON object of which [read_data]
    reads nine keys.  A key that the object lacks is [None]; a section is a
    JSON object from record keys (of type [K]) to records, in document
    order, which is the order [.values()] iterates in.  Reading the file
    itself is outside the model, and the document is taken well-shaped: the
    seed is an integer and every section an object. *)
Record Document (K : Type) := {
  doc_seed : option Z;
  doc_time_models : option (list (K * Raw));
  doc_states : option (list (K * Raw));
  doc_processes : option (list (K * Raw));
  doc_queues : option (list (K * Raw));
  doc_resources : option (list (K * Raw));
  doc_materials : option (list (K * Raw));
  doc_sinks : option (list (K * Raw));
  doc_sources : option (list (K * Raw));
}.
Arguments doc_seed {K} _.
Arguments doc_time_models {K} _.
Arguments doc_states {K} _.
Arguments doc_processes {K} _.
Arguments doc_queues {K} _.
Arguments doc_resources {K} _.
Arguments doc_materials {K} _.
Arguments doc_sinks {K} _.
Arguments doc_sources {K} _.

(** [data[key]] *)
Definition getitem {A} (key : string) (entry : option A) : Exception + A :=
  match entry with
  | Some v => inr v
  | None => inl (KeyError key)
  end.

(** [create_objects_from_configuration_data]: the records of the section in
    order, each decoded with [parse_obj_as(type, values)]; the record keys
    are not read. *)
Fixpoint create_objects_from_configuration_data {K} (T : Type)
    `{!Model Raw DecodeError T} (configuration_data : list (K * Raw))
    : Exception + list T :=
  match configuration_data with
  | [] => inr []
  | (_, values) :: rest =>
      match parse_obj_as T values with
      | inl e => inl (ParseError e)
      | inr obj =>
          match create_objects_from_configuration_data T rest with
          | inl e => inl e
          | inr objects => inr (obj :: objects)
          end
      end
  end.

(** One statement of [read_data]:
    [self.field = self.create_objects_from_configuration_data(data[key], type)] *)
Definition load_section {K} (T : Type) `{!Model Raw DecodeError T}
    (key : string) (entry : option (list (K * Raw)))
    (set : list T → M unit) : M unit :=
  configuration_data <- eval (getitem key entry) ;;
  objects <- eval (create_objects_from_configuration_data T configuration_data) ;;
  set objects.

Definition read_data {K} (data : Document K) : M unit :=
  (v <- eval (getitem "seed" (doc_seed data)) ;; set_seed v) ;;;
  load_section TIME_MODEL_DATA "time_models" (doc_time_models data) set_time_model_data ;;;
  load_section STATE_DATA_UNION "states" (doc_states data) set_state_data ;;;
  load_section PROCESS_DATA_UNION "processes" (doc_processes data) set_process_data ;;;
  load_section QueueData "queues" (doc_queues data) set_queue_data ;;;
  load_section RESOURCE_DATA_UNION "resources" (doc_resources data) set_resource_data ;;;
  load_section MaterialData "materials" (doc_materials data) set_material_data ;;;
  load_section SinkData "sinks" (doc_sinks data) set_sink_data ;;;
  load_section SourceData "sources" (doc_sources data) set_source_data.

(** [get_dict_of_list_objects]:
    [{counter: data.dict() for counter, data in enumerate(values)}] *)
Definition get_dict_of_list_objects {T} `{!Model Raw DecodeError T}
    (values : list T) : list (nat * Raw) :=
  imap (λ counter data, (counter, dict data)) values.

Definition get_dict_object_of_adapter (self : Adapter) : Document nat := {|
  doc_seed := Some (seed self);
  doc_time_models := Some (get_dict_of_list_objects (time_model_data self));
  doc_states := Some (get_dict_of_list_objects (state_data self));
  doc_processes := Some (get_dict_of_list_objects (process_data self));
  doc_queues := Some (get_dict_of_list_objects (queue_data self));
  doc_resources := Some (get_dict_of_list_objects (resource_data self));
  doc_materials := Some (get_dict_of_list_objects (material_data self));
  doc_sinks := Some (get_dict_of_list_objects (sink_data self));
  doc_sources := Some (get_dict_of_list_objects (source_data self));
|}.

(** ** The reference table of the specification

    The specification lists, per entity, its reference fields and the
    collection each must resolve in.  The definitions from here to the end
    of the section follow that table and the wording of the specification,
    not the code; the theorems relate them to the validators above. *)

(** Collections that are referred to. *)
Inductive Collection := TimeModels | States | Processes | Queues | Materials.

Definition noun (c : Collection) : string :=
  match c with
  | TimeModels => "time model"
  | States => "state"
  | Processes => "process"
  | Queues => "queue"
  | Materials => "material"
  end.

Definition IDs_of (g : Adapter) (c : Collection) : gset string :=
  match c with
  | TimeModels => get_set_of_IDs (time_model_data g)
  | States => get_set_of_IDs (state_data g)
  | Processes => get_set_of_IDs (process_data g)
  | Queues => get_set_of_IDs (queue_data g)
  | Materials => get_set_of_IDs (material_data g)
  end.

(** One declared reference: what the field is called, the ID it holds and
    the collection the ID must resolve in. *)
Record Reference := {
  field_noun : string;
  target : string;
  within : Collection;
}.

(** An entity as the table sees it: kind, ID and declared references. *)
Record Entity := {
  entity_kind : string;
  entity_ID : string;
  references : list Reference;
}.

Definition refs_to (field : string) (c : Collection) (l : list string)
    : list Reference :=
  (λ y, {| field_noun := field; target := y; within := c |}) <$> l.

Definition state_entity (s : STATE_DATA_UNION) : Entity :=
  {| entity_kind := "state"; entity_ID := ID s;
     references := refs_to "time model" TimeModels [state_time_model_id s] |}.

Definition process_entity (p : PROCESS_DATA_UNION) : Entity :=
  {| entity_kind := "process"; entity_ID := ID p;
     references := refs_to "time model" TimeModels [process_time_model_id p] |}.

Definition resource_entity (r : RESOURCE_DATA_UNION) : Entity :=
  {| entity_kind := "resource"; entity_ID := ID r;
     references :=
       refs_to "process" Processes (resource_processes r) ++
       refs_to "state" States (resource_states r) ++
       match production_queues r with
       | Some (input_queues, output_queues) =>
           refs_to "queue" Queues (input_queues ++ output_queues)
       | None => []
       end |}.

Definition material_entity (m : MaterialData) : Entity :=
  {| entity_kind := "material"; entity_ID := ID m;
     references :=
       refs_to "transport process" Processes [material_transport_process m] ++
       match material_processes m with
       | Some l => refs_to "process" Processes l
       | None => []
       end |}.

Definition sink_entity (s : SinkData) : Entity :=
  {| entity_kind := "sink"; entity_ID := ID s;
     references :=
       refs_to "material type" Materials [sink_material_type s] ++
       refs_to "queue" Queues (sink_input_queues s) |}.

Definition source_entity (s : SourceData) : Entity :=
  {| entity_kind := "source"; entity_ID := ID s;
     references :=
       refs_to "time model" TimeModels [source_time_model_id s] ++
       refs_to "material type" Materials [source_material_type s] ++
       refs_to "queue" Queues (source_output_queues s) |}.

(** The referring collections of a graph, by adapter field, in the order in
    which [read_data] assigns them. *)
Definition table (g : Adapter) : list (string * list Entity) :=
  [ ("state_data", state_entity <$> state_data g);
    ("process_data", process_entity <$> process_data g);
    ("resource_data", resource_entity <$> resource_data g);
    ("material_data", material_entity <$> material_data g);
    ("sink_data", sink_entity <$> sink_data g);
    ("source_data", source_entity <$> source_data g) ].

Definition dangling (g : Adapter) (r : Reference) : Prop :=
  target r ∉ IDs_of g (within r).

#[local] Instance dangling_dec g r : Decision (dangling g r).
Proof. unfold dangling. apply _. Defined.

(** The first dangling reference of a list of references, if any. *)
Fixpoint first_dangling (g : Adapter) (refs : list Reference) : option Reference :=
  match refs with
  | [] => None
  | r :: refs' => if decide (dangling g r) then Some r else first_dangling g refs'
  end.

(** The DanglingReference error for reference [r] of entity [o]. *)
Definition dangling_reference (g : Adapter) (o : Entity) (r : Reference) : ValueError :=
  {| ref_name := field_noun r; ref := target r;
     owner_kind := entity_kind o; owner_ID := entity_ID o;
     valid_kind := noun (within r); valid_IDs := IDs_of g (within r) |}.

Definition report (g : Adapter) (o : Entity) : option ValueError :=
  dangling_reference g o <$> first_dangling g (references o).

(** What a validator does with entity [x] given the table's report for it:
    raise the error, or return [x]. *)
Definition outcome {T} (e : option ValueError) (x : T) : ValueError + T :=
  match e with
  | Some e => inl e
  | None => inr x
  end.

(** The errors of a collection: per entity with a dangling reference, its
    position and the error of its first dangling reference. *)
Fixpoint reports (g : Adapter) (i : nat) (owners : list Entity)
    : list (nat * ValueError) :=
  match owners with
  | [] => []
  | o :: owners' =>
      match report g o with
      | Some e => (i, e) :: reports g (S i) owners'
      | None => reports g (S i) owners'
      end
  end.

(** Fail fast over the collections: the first one with an error. *)
Fixpoint first_failure (g : Adapter) (t : list (string * list Entity))
    : option (string * list (nat * ValueError)) :=
  match t with
  | [] => None
  | (loc, owners) :: t' =>
      match reports g 0 owners with
      | [] => first_failure g t'
      | errors => Some (loc, errors)
      end
  end.

(** "[y] is the ID of some loaded entity of the collection". *)
Definition resolves {T} `{!Model Raw DecodeError T} (collection : list T)
    (y : string) : Prop :=
  ∃ x, x ∈ collection ∧ ID x = y.

(** Every reference field of every entity resolves within the graph's own
    collections. *)
Record references_resolve (g : Adapter) : Prop := {
  state_time_model :
    ∀ s, s ∈ state_data g → resolves (time_model_data g) (state_time_model_id s);
  process_time_model :
    ∀ p, p ∈ process_data g → resolves (time_model_data g) (process_time_model_id p);
  resource_process :
    ∀ r y, r ∈ resource_data g → y ∈ resource_processes r →
      resolves (process_data g) y;
  resource_state :
    ∀ r y, r ∈ resource_data g → y ∈ resource_states r →
      resolves (state_data g) y;
  resource_queue :
    ∀ r input_queues output_queues y, r ∈ resource_data g →
      production_queues r = Some (input_queues, output_queues) →
      y ∈ input_queues ++ output_queues → resolves (queue_data g) y;
  material_transport :
    ∀ m, m ∈ material_data g →
      resolves (process_data g) (material_transport_process m);
  material_process :
    ∀ m l y, m ∈ material_data g → material_processes m = Some l → y ∈ l →
      resolves (process_data g) y;
  sink_material :
    ∀ s, s ∈ sink_data g → resolves (material_data g) (sink_material_type s);
  sink_queue :
    ∀ s y, s ∈ sink_data g → y ∈ sink_input_queues s → resolves (queue_data g) y;
  source_time_model :
    ∀ s, s ∈ source_data g → resolves (time_model_data g) (source_time_model_id s);
  source_material :
    ∀ s, s ∈ source_data g → resolves (material_data g) (source_material_type s);
  source_queue :
    ∀ s y, s ∈ source_data g → y ∈ source_output_queues s →
      resolves (queue_data g) y;
}.

(** The document has all nine keys, every record decodes, and the decoded
    collections and seed are those of [g]. *)
Definition section_objects {K} (T : Type) `{!Model Raw DecodeError T}
    (entry : option (list (K * Raw))) : option (list T) :=
  match entry with
  | Some configuration_data =>
      match create_objects_from_configuration_data T configuration_data with
      | inr objects => Some objects
      | inl _ => None
      end
  | None => None
  end.

Record decodes {K} (data : Document K) (g : Adapter) : Prop := {
  decodes_seed : doc_seed data = Some (seed g);
  decodes_time_models :
    section_objects TIME_MODEL_DATA (doc_time_models data) = Some (time_model_data g);
  decodes_states :
    section_objects STATE_DATA_UNION (doc_states data) = Some (state_data g);
  decodes_processes :
    section_objects PROCESS_DATA_UNION (doc_processes data) = Some (process_data g);
  decodes_queues :
    section_objects QueueData (doc_queues data) = Some (queue_data g);
  decodes_resources :
    section_objects RESOURCE_DATA_UNION (doc_resources data) = Some (resource_data g);
  decodes_materials :
    section_objects MaterialData (doc_materials data) = Some (material_data g);
  decodes_sinks :
    section_objects SinkData (doc_sinks data) = Some (sink_data g);
  decodes_sources :
    section_objects SourceData (doc_sources data) = Some (source_data g);
}.

(** Adapter [a] with the collections and seed of [g] assigned. *)
Definition install (g a : Adapter) : Adapter :=
  {| valid_configuration := valid_configuration a;
     reconfiguration_cost := reconfiguration_cost a;
     time_model_data := time_model_data g; state_data := state_data g;
     process_data := process_data g; queue_data := queue_data g;
     resource_data := resource_data g; material_data := material_data g;
     sink_data := sink_data g; source_data := source_data g; seed := seed g |}.

(** The nine keys [read_data] reads, in the order it reads them, and the
    statement of [read_data] for each. *)
Inductive Key :=
  | KSeed | KTimeModels | KStates | KProcesses | KQueues
  | KResources | KMaterials | KSinks | KSources.

Definition keys : list Key :=
  [KSeed; KTimeModels; KStates; KProcesses; KQueues;
   KResources; KMaterials; KSinks; KSources].

Definition key_name (k : Key) : string :=
  match k with
  | KSeed => "seed"
  | KTimeModels => "time_models"
  | KStates => "states"
  | KProcesses => "processes"
  | KQueues => "queues"
  | KResources => "resources"
  | KMaterials => "materials"
  | KSinks => "sinks"
  | KSources => "sources"
  end.

Definition absent {K} (data : Document K) (k : Key) : Prop :=
  match k with
  | KSeed => doc_seed data = None
  | KTimeModels => doc_time_models data = None
  | KStates => doc_states data = None
  | KProcesses => doc_processes data = None
  | KQueues => doc_queues data = None
  | KResources => doc_resources data = None
  | KMaterials => doc_materials data = None
  | KSinks => doc_sinks data = None
  | KSources => doc_sources data = None
  end.

Definition statement {K} (data : Document K) (k : Key) : M unit :=
  match k with
  | KSeed => v <- eval (getitem "seed" (doc_seed data)) ;; set_seed v
  | KTimeModels =>
      load_section TIME_MODEL_DATA "time_models" (doc_time_models data)
        set_time_model_data
  | KStates =>
      load_section STATE_DATA_UNION "states" (doc_states data) set_state_data
  | KProcesses =>
      load_section PROCESS_DATA_UNION "processes" (doc_processes data)
        set_process_data
  | KQueues => load_section QueueData "queues" (doc_queues data) set_queue_data
  | KResources =>
      load_section RESOURCE_DATA_UNION "resources" (doc_resources data)
        set_resource_data
  | KMaterials =>
      load_section MaterialData "materials" (doc_materials data) set_material_data
  | KSinks => load_section SinkData "sinks" (doc_sinks data) set_sink_data
  | KSources => load_section SourceData "sources" (doc_sources data) set_source_data
  end.

(** Statements in sequence. *)
Fixpoint run (statements : list (M unit)) : M unit :=
  match statements with
  | [] => ret tt
  | [c] => c
  | c :: rest => c ;;; run rest
  end.

(** No reference of the entity dangles. *)
Definition clean (g : Adapter) (o : Entity) : Prop :=
  Forall (λ r, ¬ dangling g r) (references o).

(** Reference [r] of entity [owner], at position [i] of the collection of
    field [loc], is the first dangling reference of [g]: the collections
    before [loc], the entities before [owner] and the references of [owner]
    before [r] all resolve. *)
Definition first_dangling_at (g : Adapter) (loc : string) (i : nat)
    (owner : Entity) (r : Reference) : Prop :=
  ∃ before owners after refs_before refs_after,
    table g = before ++ (loc, owners) :: after ∧
    Forall (λ entry, Forall (clean g) entry.2) before ∧
    owners !! i = Some owner ∧
    Forall (clean g) (take i owners) ∧
    references owner = refs_before ++ r :: refs_after ∧
    Forall (λ r', ¬ dangling g r') refs_before ∧
    dangling g r.

(** The outcome of validating graph [g] by the table. *)
Definition verdict (g : Adapter) : Exception + unit :=
  match first_failure g (table g) with
  | None => inr tt
  | Some (loc, errors) => inl (ValidationError loc errors)
  end.

(** The exception names reference [r] of entity [owner]: one of its errors
    carries the entity's kind and ID, the field's noun and the target ID. *)
Definition names (exc : Exception) (owner : Entity) (r : Reference) : Prop :=
  ∃ loc errors i e,
    exc = ValidationError loc errors ∧ (i, e) ∈ errors ∧
    owner_kind e = entity_kind owner ∧ owner_ID e = entity_ID owner ∧
    ref_name e = field_noun r ∧ ref e = target r.

(** Every entity of [g] decodes back from its own [.dict()]. *)
Definition reparses_all {T} `{!Model Raw DecodeError T} (l : list T) : Prop :=
  Forall (λ x, parse_obj_as T (dict x) = inr x) l.

Record reparses (g : Adapter) : Prop := {
  reparses_time_models : reparses_all (time_model_data g);
  reparses_states : reparses_all (state_data g);
  reparses_processes : reparses_all (process_data g);
  reparses_queues : reparses_all (queue_data g);
  reparses_resources : reparses_all (resource_data g);
  reparses_materials : reparses_all (material_data g);
  reparses_sinks : reparses_all (sink_data g);
  reparses_sources : reparses_all (source_data g);
}.

(** The document with every record key [k] replaced by [f k]; writing the
    dumped document as JSON turns its integer keys into strings. *)
Definition rekey_section {K K'} (f : K → K') (entry : option (list (K * Raw)))
    : option (list (K' * Raw)) :=
  fmap (M := list) (prod_map f id) <$> entry.

Definition rekey {K K'} (f : K → K') (data : Document K) : Document K' := {|
  doc_seed := doc_seed data;
  doc_time_models := rekey_section f (doc_time_models data);
  doc_states := rekey_section f (doc_states data);
  doc_processes := rekey_section f (doc_processes data);
  doc_queues := rekey_section f (doc_queues data);
  doc_resources := rekey_section f (doc_resources data);
  doc_materials := rekey_section f (doc_materials data);
  doc_sinks := rekey_section f (doc_sinks data);
  doc_sources := rekey_section f (doc_sources data);
|}.

(** The collection holds one entity per record of the section, in document
    order: the [i]-th entity is the [i]-th record decoded. *)
Definition record_for_record {K T} `{!Model Raw DecodeError T}
    (entry : option (list (K * Raw))) (objects : list T) : Prop :=
  ∃ configuration_data,
    entry = Some configuration_data ∧
    Forall2 (λ kv x, parse_obj_as T kv.2 = inr x) configuration_data objects.

Record one_entity_per_record {K} (data : Document K) (g : Adapter) : Prop := {
  per_record_time_models : record_for_record (doc_time_models data) (time_model_data g);
  per_record_states : record_for_record (doc_states data) (state_data g);
  per_record_processes : record_for_record (doc_processes data) (process_data g);
  per_record_queues : record_for_record (doc_queues data) (queue_data g);
  per_record_resources : record_for_record (doc_resources data) (resource_data g);
  per_record_materials : record_for_record (doc_materials data) (material_data g);
  per_record_sinks : record_for_record (doc_sinks data) (sink_data g);
  per_record_sources : record_for_record (doc_sources data) (source_data g);
}.

(** The method never changes [valid_configuration]. *)
Definition keeps_flag {A} (c : M A) : Prop :=
  ∀ s, valid_configuration (snd (c s)) = valid_configuration s.

(** Two adapters hold the same graph: the same eight collections and the
    same seed. *)
Record same_graph (g g' : Adapter) : Prop := {
  same_seed : seed g' = seed g;
  same_time_models : time_model_data g' = time_model_data g;
  same_states : state_data g' = state_data g;
  same_processes : process_data g' = process_data g;
  same_queues : queue_data g' = queue_data g;
  same_resources : resource_data g' = resource_data g;
  same_materials : material_data g' = material_data g;
  same_sinks : sink_data g' = sink_data g;
  same_sources : source_data g' = source_data g;
}.

End Adapter.

Notation "x <- c ;; k" := (bind c (λ x, k))
  (at level 100, c at next level, right associativity).
Notation "c ;;; k" := (bind c (λ _, k))
  (at level 100, right associativity).

Arguments Document {ds} K.
Arguments doc_seed {ds K} _.
Arguments doc_time_models {ds K} _.
Arguments doc_states {ds K} _.
Arguments doc_processes {ds K} _.
Arguments doc_queues {ds K} _.
Arguments doc_resources {ds K} _.
Arguments doc_materials {ds K} _.
Arguments doc_sinks {ds K} _.
Arguments doc_sources {ds K} _.
Arguments Exception {ds}.
Arguments M {ds} A.

(** ** More of [JsonAdapter] *)

Section Typed.
Context `{ds : DataStructures}.

(** [values.update({"type": cls_name})], the one place where [adapter.py]
    writes into a raw record; records are a parameter, and so is this
    update of them. *)
Variable update_type : string → Raw → Raw.

(** The inner loop of [create_typed_object_from_configuration_data] over the
    records of one class.  The loop writes the class name into each record
    before decoding it, and the records are those of the caller's document:
    the function is modelled as returning, beside its outcome, the records as
    the loop leaves them. *)
Fixpoint create_typed_items {K} (T : Type) `{!Model Raw DecodeError T}
    (cls_name : string) (items : list (K * Raw))
    : (Exception + list T) * list (K * Raw) :=
  match items with
  | [] => (inr [], [])
  | (k, values) :: rest =>
      let values := update_type cls_name values in
      match parse_obj_as T values with
      | inl e => (inl (ParseError e), (k, values) :: rest)
      | inr obj =>
          let '(r, rest) := create_typed_items T cls_name rest in
          (match r with
           | inl e => inl e
           | inr objects => inr (obj :: objects)
           end,
           (k, values) :: rest)
      end
  end.

(** [create_typed_object_from_configuration_data]: the sections of the
    document by class name, in document order; one list of objects for all
    classes. *)
Fixpoint create_typed_object_from_configuration_data {K} (T : Type)
    `{!Model Raw DecodeError T}
    (configuration_data : list (string * list (K * Raw)))
    : (Exception + list T) * list (string * list (K * Raw)) :=
  match configuration_data with
  | [] => (inr [], [])
  | (cls_name, items) :: rest =>
      match create_typed_items T cls_name items with
      | (inl e, items) => (inl e, (cls_name, items) :: rest)
      | (inr objects, items) =>
          let '(r, rest) := create_typed_object_from_configuration_data T rest in
          (match r with
           | inl e => inl e
           | inr objects' => inr (objects ++ objects')
           end,
           (cls_name, items) :: rest)
      end
  end.

(** The document with the class name written into every record. *)
Definition typed {K} (configuration_data : list (string * list (K * Raw)))
    : list (string * list (K * Raw)) :=
  (λ section : string * list (K * Raw),
     (section.1, prod_map id (update_type section.1) <$> section.2))
    <$> configuration_data.

(** All records of the document, class after class. *)
Definition all_records {K} (configuration_data : list (string * list (K * Raw)))
    : list (K * Raw) :=
  concat (snd <$> configuration_data).

End Typed.

Section Outcomes.
Context `{ds : DataStructures}.

(** The adapter field a statement of [read_data] assigns under a validator
    of [Adapter], if any. *)
Definition validated_field (k : Key) : option string :=
  match k with
  | KStates => Some "state_data"
  | KProcesses => Some "process_data"
  | KResources => Some "resource_data"
  | KMaterials => Some "material_data"
  | KSinks => Some "sink_data"
  | KSources => Some "source_data"
  | KSeed | KTimeModels | KQueues => None
  end.

(** Two adapters hold the same values in the fields that the first [n]
    statements of [read_data] assign. *)
Definition agree (n : nat) (s s' : Adapter) : Prop :=
  ((1 ≤ n)%nat → seed s = seed s') ∧
  ((2 ≤ n)%nat → time_model_data s = time_model_data s') ∧
  ((3 ≤ n)%nat → state_data s = state_data s') ∧
  ((4 ≤ n)%nat → process_data s = process_data s') ∧
  ((5 ≤ n)%nat → queue_data s = queue_data s') ∧
  ((6 ≤ n)%nat → resource_data s = resource_data s') ∧
  ((7 ≤ n)%nat → material_data s = material_data s') ∧
  ((8 ≤ n)%nat → sink_data s = sink_data s') ∧
  ((9 ≤ n)%nat → source_data s = source_data s').

(** The kinds of error of [read_data], by the statement that raises. *)
Definition raised_by {K} (data : Document K) (k : Key) (e : Exception) : Prop :=
  (e = KeyError (key_name k) ∧ absent data k) ∨
  (∃ pe, e = ParseError pe ∧ ¬ absent data k ∧ k ≠ KSeed) ∨
  (∃ loc errors, e = ValidationError loc errors ∧ validated_field k = Some loc ∧
                 errors ≠ [] ∧ ¬ absent data k).

(** Adapter [s] still holds what [a] held in the fields that the statements
    of [read_data] from the [n]-th on assign, and in the two fields that no
    statement assigns. *)
Definition untouched_from (n : nat) (a s : Adapter) : Prop :=
  valid_configuration s = valid_configuration a ∧
  reconfiguration_cost s = reconfiguration_cost a ∧
  ((n ≤ 0)%nat → seed s = seed a) ∧
  ((n ≤ 1)%nat → time_model_data s = time_model_data a) ∧
  ((n ≤ 2)%nat → state_data s = state_data a) ∧
  ((n ≤ 3)%nat → process_data s = process_data a) ∧
  ((n ≤ 4)%nat → queue_data s = queue_data a) ∧
  ((n ≤ 5)%nat → resource_data s = resource_data a) ∧
  ((n ≤ 6)%nat → material_data s = material_data a) ∧
  ((n ≤ 7)%nat → sink_data s = sink_data a) ∧
  ((n ≤ 8)%nat → source_data s = source_data a).

(** What every validator of [Adapter] does with an entity of kind [kind]:
    it returns the entity itself, or raises an error that carries the kind
    and the ID of that entity and a reference that is not among the valid
    IDs it reports. *)
Definition sound_validator {T} `{!Model Raw DecodeError T} (kind : string)
    (check : T → ValueError + T) : Prop :=
  ∀ x,
    match check x with
    | inl e => owner_kind e = kind ∧ owner_ID e = ID x ∧ ref e ∉ valid_IDs e
    | inr r => r = x
    end.

End Outcomes.

(** ** A small instance of the entity classes

    The theorems below hold for any entity classes.  Concrete documents need
    concrete classes: this module gives a minimal set with one shape per
    category, two for resources. *)
Module Sample.

(** Modelled from the spec: the raw record of [prodsim.data_structures]
    input, "a mapping of field name → value"; the values this instance
    reads are strings, lists of strings and integers. *)
Inductive Field :=
  | JString (s : string)
  | JStrings (l : list string)
  | JNumber (n : Z).

Definition Record_ : Type := list (string * Field).

Fixpoint field (r : Record_) (k : string) : option Field :=
  match r with
  | [] => None
  | (k', v) :: r' => if String.eqb k k' then Some v else field r' k
  end.

(** Modelled from the spec: the [MalformedRecord] error of the record
    resolver, "identifying the category, the offending field, and the
    record's declared ID if available". *)
Record MalformedRecord := {
  category : string;
  offending_field : string;
  declared_ID : option string;
}.

Definition get_string (r : Record_) (k : string) : option string :=
  match field r k with Some (JString s) => Some s | _ => None end.
Definition get_strings (r : Record_) (k : string) : option (list string) :=
  match field r k with Some (JStrings l) => Some l | _ => None end.
Definition get_number (r : Record_) (k : string) : option Z :=
  match field r k with Some (JNumber n) => Some n | _ => None end.

Definition required {A} (cat : string) (r : Record_)
    (get : Record_ → string → option A) (k : string) : MalformedRecord + A :=
  match get r k with
  | Some v => inr v
  | None => inl {| category := cat; offending_field := k;
                   declared_ID := get_string r "ID" |}
  end.

Notation "x <~ c ; k" :=
  (match c with inl e => inl e | inr x => k end)
  (at level 100, c at next level, right associativity, only parsing).

(** Modelled from the spec: the entities of the data model table of
    [prodsim.data_structures] (ID and reference fields per entity; a queue
    has a capacity; a resource is a base shape or the production-capable
    variant with queue references; a material's [processes] is optional).
    The kind-specific parameters of time models, states and processes are
    left out. *)
Record TimeModel := { tm_ID : string }.
Record State := { st_ID : string; st_time_model_id : string }.
Record Process := { pr_ID : string; pr_time_model_id : string }.
Record Queue := { qu_ID : string; qu_capacity : Z }.
Record Resource := {
  re_ID : string;
  re_processes : list string;
  re_states : list string;
  re_queues : option (list string * list string);
}.
Record Material := {
  ma_ID : string;
  ma_transport_process : string;
  ma_processes : option (list string);
}.
Record Sink := {
  si_ID : string;
  si_material_type : string;
  si_input_queues : list string;
}.
Record Source := {
  so_ID : string;
  so_time_model_id : string;
  so_material_type : string;
  so_output_queues : list string;
}.

(** Modelled from the spec: the record resolver of
    [prodsim.data_structures] behind [parse_obj_as], a function from a raw
    record to one typed entity or a [MalformedRecord]; a resource record
    carries its variant in the discriminator field ["type"]. *)
Definition parse_time_model (r : Record_) : MalformedRecord + TimeModel :=
  i <~ required "time model" r get_string "ID" ;
  inr {| tm_ID := i |}.

Definition parse_state (r : Record_) : MalformedRecord + State :=
  i <~ required "state" r get_string "ID" ;
  t <~ required "state" r get_string "time_model_id" ;
  inr {| st_ID := i; st_time_model_id := t |}.

Definition parse_process (r : Record_) : MalformedRecord + Process :=
  i <~ required "process" r get_string "ID" ;
  t <~ required "process" r get_string "time_model_id" ;
  inr {| pr_ID := i; pr_time_model_id := t |}.

Definition parse_queue (r : Record_) : MalformedRecord + Queue :=
  i <~ required "queue" r get_string "ID" ;
  c <~ required "queue" r get_number "capacity" ;
  inr {| qu_ID := i; qu_capacity := c |}.

Definition parse_resource (r : Record_) : MalformedRecord + Resource :=
  i <~ required "resource" r get_string "ID" ;
  p <~ required "resource" r get_strings "processes" ;
  s <~ required "resource" r get_strings "states" ;
  d <~ required "resource" r get_string "type" ;
  if decide (d = "ProductionResourceData") then
    iq <~ required "resource" r get_strings "input_queues" ;
    oq <~ required "resource" r get_strings "output_queues" ;
    inr {| re_ID := i; re_processes := p; re_states := s;
           re_queues := Some (iq, oq) |}
  else if decide (d = "ResourceData") then
    inr {| re_ID := i; re_processes := p; re_states := s; re_queues := None |}
  else
    inl {| category := "resource"; offending_field := "type";
           declared_ID := Some i |}.

Definition parse_material (r : Record_) : MalformedRecord + Material :=
  i <~ required "material" r get_string "ID" ;
  t <~ required "material" r get_string "transport_process" ;
  match field r "processes" with
  | None => inr {| ma_ID := i; ma_transport_process := t; ma_processes := None |}
  | Some (JStrings l) =>
      inr {| ma_ID := i; ma_transport_process := t; ma_processes := Some l |}
  | Some _ =>
      inl {| category := "material"; offending_field := "processes";
             declared_ID := Some i |}
  end.

Definition parse_sink (r : Record_) : MalformedRecord + Sink :=
  i <~ required "sink" r get_string "ID" ;
  m <~ required "sink" r get_string "material_type" ;
  q <~ required "sink" r get_strings "input_queues" ;
  inr {| si_ID := i; si_material_type := m; si_input_queues := q |}.

Definition parse_source (r : Record_) : MalformedRecord + Source :=
  i <~ required "source" r get_string "ID" ;
  t <~ required "source" r get_string "time_model_id" ;
  m <~ required "source" r get_string "material_type" ;
  q <~ required "source" r get_strings "output_queues" ;
  inr {| so_ID := i; so_time_model_id := t; so_material_type := m;
         so_output_queues := q |}.

(** Modelled from the spec: [.dict()] of the entities of
    [prodsim.data_structures], the record shape the resolver reads. *)
Definition dict_time_model (x : TimeModel) : Record_ :=
  [("ID", JString (tm_ID x))].
Definition dict_state (x : State) : Record_ :=
  [("ID", JString (st_ID x)); ("time_model_id", JString (st_time_model_id x))].
Definition dict_process (x : Process) : Record_ :=
  [("ID", JString (pr_ID x)); ("time_model_id", JString (pr_time_model_id x))].
Definition dict_queue (x : Queue) : Record_ :=
  [("ID", JString (qu_ID x)); ("capacity", JNumber (qu_capacity x))].
Definition dict_resource (x : Resource) : Record_ :=
  [("ID", JString (re_ID x)); ("processes", JStrings (re_processes x));
   ("states", JStrings (re_states x))] ++
  match re_queues x with
  | Some (iq, oq) =>
      [("type", JString "ProductionResourceData");
       ("input_queues", JStrings iq); ("output_queues", JStrings oq)]
  | None => [("type", JString "ResourceData")]
  end.
Definition dict_material (x : Material) : Record_ :=
  [("ID", JString (ma_ID x));
   ("transport_process", JString (ma_transport_process x))] ++
  match ma_processes x with
  | Some l => [("processes", JStrings l)]
  | None => []
  end.
Definition dict_sink (x : Sink) : Record_ :=
  [("ID", JString (si_ID x)); ("material_type", JString (si_material_type x));
   ("input_queues", JStrings (si_input_queues x))].
Definition dict_source (x : Source) : Record_ :=
  [("ID", JString (so_ID x)); ("time_model_id", JString (so_time_model_id x));
   ("material_type", JString (so_material_type x));
   ("output_queues", JStrings (so_output_queues x))].

#[export] Instance data_structures : DataStructures := {|
  Raw := Record_;
  DecodeError := MalformedRecord;
  time_model_model :=
    {| ID := tm_ID; parse_obj_as := parse_time_model; dict := dict_time_model |};
  state_model :=
    {| ID := st_ID; parse_obj_as := parse_state; dict := dict_state |};
  process_model :=
    {| ID := pr_ID; parse_obj_as := parse_process; dict := dict_process |};
  queue_model :=
    {| ID := qu_ID; parse_obj_as := parse_queue; dict := dict_queue |};
  resource_model :=
    {| ID := re_ID; parse_obj_as := parse_resource; dict := dict_resource |};
  material_model :=
    {| ID := ma_ID; parse_obj_as := parse_material; dict := dict_material |};
  sink_model :=
    {| ID := si_ID; parse_obj_as := parse_sink; dict := dict_sink |};
  source_model :=
    {| ID := so_ID; parse_obj_as := parse_source; dict := dict_source |};
  state_time_model_id := st_time_model_id;
  process_time_model_id := pr_time_model_id;
  resource_processes := re_processes;
  resource_states := re_states;
  production_queues := re_queues;
  material_transport_process := ma_transport_process;
  material_processes := ma_processes;
  sink_material_type := si_material_type;
  sink_input_queues := si_input_queues;
  source_time_model_id := so_time_model_id;
  source_material_type := so_material_type;
  source_output_queues := so_output_queues;
|}.

(** *** Documents *)

Definition time_model_record (i : string) : Record_ :=
  [("ID", JString i)].
Definition state_record (i t : string) : Record_ :=
  [("ID", JString i); ("time_model_id", JString t)].
Definition process_record (i t : string) : Record_ :=
  [("ID", JString i); ("time_model_id", JString t)].

(** One time model [tm1] and one state [s1] that refers to it. *)
Definition scenario : Document string := {|
  doc_seed := Some 7%Z;
  doc_time_models := Some [("0", time_model_record "tm1")];
  doc_states := Some [("0", state_record "s1" "tm1")];
  doc_processes := Some []; doc_queues := Some [];
  doc_resources := Some []; doc_materials := Some [];
  doc_sinks := Some []; doc_sources := Some [];
|}.

(** The adapter that holds the scenario. *)
Definition scenario_graph : Adapter := {|
  valid_configuration := true;
  reconfiguration_cost := 0%Q;
  time_model_data := [{| tm_ID := "tm1" |}];
  state_data := [{| st_ID := "s1"; st_time_model_id := "tm1" |}];
  process_data := []; queue_data := []; resource_data := [];
  material_data := []; sink_data := []; source_data := [];
  seed := 7%Z;
|}.

(** The adapter after [JsonAdapter().read_data] of the scenario. *)
Definition loaded_scenario : Adapter := snd (read_data scenario JsonAdapter).

(** The scenario with the state's reference changed to [tm2]. *)
Definition s1_tm2 : State := {| st_ID := "s1"; st_time_model_id := "tm2" |}.

Definition scenario_tm2 : Document string := {|
  doc_seed := Some 7%Z;
  doc_time_models := Some [("0", time_model_record "tm1")];
  doc_states := Some [("0", state_record "s1" "tm2")];
  doc_processes := Some []; doc_queues := Some [];
  doc_resources := Some []; doc_materials := Some [];
  doc_sinks := Some []; doc_sources := Some [];
|}.

(** The scenario without its ["sources"] key. *)
Definition scenario_without_sources : Document string := {|
  doc_seed := Some 7%Z;
  doc_time_models := Some [("0", time_model_record "tm1")];
  doc_states := Some [("0", state_record "s1" "tm1")];
  doc_processes := Some []; doc_queues := Some [];
  doc_resources := Some []; doc_materials := Some [];
  doc_sinks := Some []; doc_sources := None;
|}.

(** No ["sources"] key, and state [s1] refers to the missing [tm2]. *)
Definition tm2_without_sources : Document string := {|
  doc_seed := Some 7%Z;
  doc_time_models := Some [("0", time_model_record "tm1")];
  doc_states := Some [("0", state_record "s1" "tm2")];
  doc_processes := Some []; doc_queues := Some [];
  doc_resources := Some []; doc_materials := Some [];
  doc_sinks := Some []; doc_sources := None;
|}.

(** State [s1] refers to the missing [tmA] and process [p1] to the missing
    [tmB]. *)
Definition two_dangling : Document string := {|
  doc_seed := Some 7%Z;
  doc_time_models := Some [("0", time_model_record "tm1")];
  doc_states := Some [("0", state_record "s1" "tmA")];
  doc_processes := Some [("0", process_record "p1" "tmB")];
  doc_queues := Some [];
  doc_resources := Some []; doc_materials := Some [];
  doc_sinks := Some []; doc_sources := Some [];
|}.

Definition p1_tmB : Process := {| pr_ID := "p1"; pr_time_model_id := "tmB" |}.

(** Process [p1] as the reference table sees it, and its one reference. *)
Definition p1_entity : Entity := process_entity p1_tmB.
Definition p1_reference : Reference :=
  {| field_noun := "time model"; target := "tmB"; within := TimeModels |}.

Definition two_dangling_graph : Adapter := {|
  valid_configuration := true;
  reconfiguration_cost := 0%Q;
  time_model_data := [{| tm_ID := "tm1" |}];
  state_data := [{| st_ID := "s1"; st_time_model_id := "tmA" |}];
  process_data := [p1_tmB];
  queue_data := []; resource_data := [];
  material_data := []; sink_data := []; source_data := [];
  seed := 7%Z;
|}.

(** Two time-model records with the same ID [tm1]. *)
Definition duplicate_ids : Document string := {|
  doc_seed := Some 7%Z;
  doc_time_models :=
    Some [("0", time_model_record "tm1"); ("1", time_model_record "tm1")];
  doc_states := Some [("0", state_record "s1" "tm1")];
  doc_processes := Some []; doc_queues := Some [];
  doc_resources := Some []; doc_materials := Some [];
  doc_sinks := Some []; doc_sources := Some [];
|}.

(** The IDs of the time-model records of a document, in document order. *)
Definition doc_time_model_IDs (data : Document string) : option (list string) :=
  cfg ← doc_time_models data;
  mapM (λ kv : string * Record_, get_string kv.2 "ID") cfg.

Definition duplicate_ids_graph : Adapter := {|
  valid_configuration := true;
  reconfiguration_cost := 0%Q;
  time_model_data := [{| tm_ID := "tm1" |}; {| tm_ID := "tm1" |}];
  state_data := [{| st_ID := "s1"; st_time_model_id := "tm1" |}];
  process_data := []; queue_data := []; resource_data := [];
  material_data := []; sink_data := []; source_data := [];
  seed := 7%Z;
|}.

(** A graph with every kind of entity: a production resource and a plain
    one, a material with a [processes] list and one without. *)
Definition r1 : Resource :=
  {| re_ID := "r1"; re_processes := ["p1"]; re_states := ["s1"];
     re_queues := Some (["q1"], ["q2"]) |}.
Definition r2 : Resource :=
  {| re_ID := "r2"; re_processes := ["p1"]; re_states := [];
     re_queues := None |}.
Definition m1 : Material :=
  {| ma_ID := "m1"; ma_transport_process := "p1"; ma_processes := Some ["p1"] |}.
Definition m2 : Material :=
  {| ma_ID := "m2"; ma_transport_process := "p1"; ma_processes := None |}.
Definition m3 : Material :=
  {| ma_ID := "m3"; ma_transport_process := "p1"; ma_processes := Some [] |}.
Definition m4 : Material :=
  {| ma_ID := "m4"; ma_transport_process := "p1";
     ma_processes := Some ["p1"; "missing"] |}.
Definition m5 : Material :=
  {| ma_ID := "m5"; ma_transport_process := "p9"; ma_processes := None |}.

Definition plant : Adapter := {|
  valid_configuration := true;
  reconfiguration_cost := 0%Q;
  time_model_data := [{| tm_ID := "tm1" |}];
  state_data := [{| st_ID := "s1"; st_time_model_id := "tm1" |}];
  process_data := [{| pr_ID := "p1"; pr_time_model_id := "tm1" |}];
  queue_data := [{| qu_ID := "q1"; qu_capacity := 10 |};
                 {| qu_ID := "q2"; qu_capacity := 0 |}];
  resource_data := [r1; r2];
  material_data := [m1; m2; m3];
  sink_data := [{| si_ID := "k1"; si_material_type := "m1";
                   si_input_queues := ["q2"] |}];
  source_data := [{| so_ID := "o1"; so_time_model_id := "tm1";
                     so_material_type := "m1"; so_output_queues := ["q1"] |}];
  seed := 42%Z;
|}.

(** Modelled from the spec: writing the discriminator into a raw record,
    [values.update({"type": cls_name})]; the first entry of a record is the
    one a lookup finds. *)
Definition set_type (cls_name : string) (r : Record_) : Record_ :=
  ("type", JString cls_name) :: r.

(** The resources of [plant] by class name, without their discriminators. *)
Definition resources_by_class : list (string * list (string * Record_)) :=
  [ ("ProductionResourceData",
     [("0", [("ID", JString "r1"); ("processes", JStrings ["p1"]);
             ("states", JStrings ["s1"]); ("input_queues", JStrings ["q1"]);
             ("output_queues", JStrings ["q2"])])]);
    ("ResourceData",
     [("0", [("ID", JString "r2"); ("processes", JStrings ["p1"]);
             ("states", JStrings [])])]) ].

(** [plant] after the time models were assigned the empty list. *)
Definition plant_without_time_models : Adapter := with_time_model_data [] plant.

End Sample.

(** * Properties *)

Section Properties.
Context `{ds : DataStructures}.

Implicit Types (g self values : Adapter) (o : Entity) (r : Reference).

(** ** Membership in an ID set *)

Lemma elem_of_get_set_of_IDs {T} `{!Model Raw DecodeError T}
    (collection : list T) (y : string) :
  y ∈ get_set_of_IDs collection ↔ resolves collection y.
Proof.
  unfold get_set_of_IDs, resolves.
  rewrite elem_of_list_to_set, list_elem_of_fmap.
  split; [intros (x & Hy & Hx) | intros (x & Hx & Hy)]; exists x; by split.
Qed.

Lemma first_not_in_None (l : list string) (ids : gset string) :
  first_not_in l ids = None ↔ ∀ y, y ∈ l → y ∈ ids.
Proof.
  induction l as [|x l IH]; simpl.
  - split; [intros _ y Hy; inversion Hy | done].
  - destruct (decide (x ∈ ids)) as [Hx|Hx].
    + rewrite IH. split.
      * intros H y Hy. apply elem_of_cons in Hy as [Hy|Hy]; [by subst | auto].
      * intros H y Hy. apply H. by right.
    + split; [done|]. intros H. exfalso. apply Hx, H. by left.
Qed.

Lemma first_not_in_Some (l : list string) (ids : gset string) (y : string) :
  first_not_in l ids = Some y →
  ∃ before after, l = before ++ (y :: after) ∧ (y ∉ ids) ∧ ∀ x, x ∈ before → x ∈ ids.
Proof.
  induction l as [|x l IH]; simpl; [done|].
  destruct (decide (x ∈ ids)) as [Hx|Hx].
  - intros H. destruct (IH H) as (before & after & Hl & Hy & Hb).
    exists (x :: before), after. split_and!; [by rewrite Hl | done |].
    intros z Hz. apply elem_of_cons in Hz as [Hz|Hz]; [by subst | auto].
  - intros H. injection H as H. subst y. exists [], l. split_and!; [done..|].
    intros z Hz. inversion Hz.
Qed.

(** ** The validators compute the table's report *)

Lemma first_dangling_app g (refs refs' : list Reference) :
  first_dangling g (refs ++ refs') =
    match first_dangling g refs with
    | Some r => Some r
    | None => first_dangling g refs'
    end.
Proof.
  induction refs as [|r refs IH]; simpl; [done|].
  by destruct (decide (dangling g r)).
Qed.

Lemma first_dangling_refs_to g (field : string) (c : Collection) (l : list string) :
  first_dangling g (refs_to field c l) =
    ((λ y, {| field_noun := field; target := y; within := c |}) <$>
       first_not_in l (IDs_of g c)).
Proof.
  induction l as [|y l IH]; simpl; [done|].
  unfold dangling at 1; simpl.
  destruct (decide (y ∈ IDs_of g c)), (decide (y ∉ IDs_of g c)); try done.
Qed.

Lemma first_dangling_None g (refs : list Reference) :
  first_dangling g refs = None ↔ ∀ r, r ∈ refs → ¬ dangling g r.
Proof.
  induction refs as [|r refs IH]; simpl.
  - split; [intros _ r Hr; inversion Hr | done].
  - destruct (decide (dangling g r)) as [Hr|Hr].
    + split; [done|]. intros H. exfalso. eapply H; [by left | done].
    + rewrite IH. split.
      * intros H r' Hr'. apply elem_of_cons in Hr' as [Hr'|Hr']; [by subst | auto].
      * intros H r' Hr'. apply H. by right.
Qed.

Lemma first_dangling_Some g (refs : list Reference) r :
  first_dangling g refs = Some r →
  ∃ before after, refs = before ++ (r :: after) ∧ dangling g r ∧
    ∀ r', r' ∈ before → ¬ dangling g r'.
Proof.
  induction refs as [|r0 refs IH]; simpl; [done|].
  destruct (decide (dangling g r0)) as [Hr|Hr].
  - intros H. injection H as H. subst r0. exists [], refs.
    split_and!; [done..|]. intros r' Hr'. inversion Hr'.
  - intros H. destruct (IH H) as (before & after & Hl & Hd & Hb).
    exists (r0 :: before), after. split_and!; [by rewrite Hl | done |].
    intros r' Hr'. apply elem_of_cons in Hr' as [Hr'|Hr']; [by subst | auto].
Qed.

Ltac table_report :=
  unfold report; simpl;
  rewrite ?first_dangling_app, ?first_dangling_refs_to; simpl.

Lemma check_states_report values g (s : STATE_DATA_UNION) :
  time_model_data values = time_model_data g →
  check_states values s = outcome (report g (state_entity s)) s.
Proof.
  intros Htm. unfold check_states. rewrite Htm. table_report.
  repeat case_decide; simpl; try done.
Qed.

Lemma check_processes_report values g (p : PROCESS_DATA_UNION) :
  time_model_data values = time_model_data g →
  check_processes values p = outcome (report g (process_entity p)) p.
Proof.
  intros Htm. unfold check_processes. rewrite Htm. table_report.
  repeat case_decide; simpl; try done.
Qed.

Lemma check_resources_report values g (x : RESOURCE_DATA_UNION) :
  process_data values = process_data g →
  state_data values = state_data g →
  queue_data values = queue_data g →
  check_resources values x = outcome (report g (resource_entity x)) x.
Proof.
  intros Hp Hs Hq. unfold check_resources. rewrite Hp, Hs, Hq. table_report.
  destruct (first_not_in (resource_processes x) _); simpl; [done|].
  destruct (first_not_in (resource_states x) _); simpl; [done|].
  destruct (production_queues x) as [[iq oq]|]; simpl; [|done].
  rewrite first_dangling_refs_to. simpl.
  by destruct (first_not_in (iq ++ oq) _).
Qed.

Lemma check_materials_report values g (m : MaterialData) :
  process_data values = process_data g →
  check_materials values m = outcome (report g (material_entity m)) m.
Proof.
  intros Hp. unfold check_materials. rewrite Hp. table_report.
  repeat case_decide; simpl; try done.
  destruct (material_processes m) as [l|]; simpl; [|done].
  rewrite first_dangling_refs_to. simpl.
  by destruct (first_not_in l _).
Qed.

Lemma check_sinks_report values g (s : SinkData) :
  material_data values = material_data g →
  queue_data values = queue_data g →
  check_sinks values s = outcome (report g (sink_entity s)) s.
Proof.
  intros Hm Hq. unfold check_sinks. rewrite Hm, Hq. table_report.
  repeat case_decide; simpl; try done.
  by destruct (first_not_in (sink_input_queues s) _).
Qed.

Lemma check_sources_report values g (s : SourceData) :
  time_model_data values = time_model_data g →
  material_data values = material_data g →
  queue_data values = queue_data g →
  check_sources values s = outcome (report g (source_entity s)) s.
Proof.
  intros Ht Hm Hq. unfold check_sources. rewrite Ht, Hm, Hq. table_report.
  repeat case_decide; simpl; try done.
  repeat case_decide; simpl; try done.
  by destruct (first_not_in (source_output_queues s) _).
Qed.

(** ** Items of an assignment *)

Lemma validate_each_reports {T} g (view : T → Entity)
    (check : T → ValueError + T) (i : nat) (v : list T) :
  (∀ x, check x = outcome (report g (view x)) x) →
  fst (validate_each check i v) = reports g i (view <$> v) ∧
  (reports g i (view <$> v) = [] → snd (validate_each check i v) = v).
Proof.
  intros Hcheck. revert i. induction v as [|x v IH]; intros i; simpl; [done|].
  destruct (IH (S i)) as [IH1 IH2].
  destruct (validate_each check (S i) v) as [errors result]; simpl in *.
  rewrite Hcheck. destruct (report g (view x)); simpl.
  - split; [by rewrite IH1 | done].
  - split; [done|]. intros H. by rewrite IH2.
Qed.

Lemma validated_setattr_reports {T} g (view : T → Entity) (name : string)
    (check : Adapter → T → ValueError + T) (set : list T → Adapter → Adapter)
    (v : list T) self :
  (∀ x, check self x = outcome (report g (view x)) x) →
  validated_setattr name check set v self =
    match reports g 0 (view <$> v) with
    | [] => (inr tt, set v self)
    | errors => (inl (ValidationError name errors), self)
    end.
Proof.
  intros Hcheck. unfold validated_setattr.
  destruct (validate_each_reports g view (check self) 0 v Hcheck) as [H1 H2].
  destruct (validate_each (check self) 0 v) as [errors result]; simpl in *.
  subst errors. destruct (reports g 0 (view <$> v)); [|done].
  by rewrite H2.
Qed.

Lemma reports_nil g (i : nat) (owners : list Entity) :
  reports g i owners = [] ↔ ∀ o, o ∈ owners → report g o = None.
Proof.
  revert i. induction owners as [|o owners IH]; intros i; simpl.
  - split; [intros _ o Ho; inversion Ho | done].
  - destruct (report g o) eqn:Ho.
    + split; [done|]. intros H. specialize (H o). rewrite Ho in H.
      discriminate H. by left.
    + rewrite IH. split.
      * intros H o' Ho'. apply elem_of_cons in Ho' as [Ho'|Ho']; [by subst | auto].
      * intros H o' Ho'. apply H. by right.
Qed.

Lemma reports_cons g (i j : nat) (owners : list Entity) e errors :
  reports g i owners = (j, e) :: errors →
  ∃ k o, j = i + k ∧ owners !! k = Some o ∧ report g o = Some e ∧
    ∀ o', o' ∈ take k owners → report g o' = None.
Proof.
  revert i. induction owners as [|o owners IH]; intros i; simpl; [done|].
  destruct (report g o) eqn:Ho.
  - intros H. injection H as Hj He _. subst.
    exists 0, o. split_and!; [lia | done..|].
    intros o' Ho'. inversion Ho'.
  - intros H. destruct (IH _ H) as (k & o' & Hj & Hk & He & Hb).
    exists (S k), o'. split_and!; [lia | done..|].
    intros o'' Ho''. simpl in Ho''.
    apply elem_of_cons in Ho'' as [Ho''|Ho'']; [by subst | auto].
Qed.

(** ** Loading a document that decodes *)

Lemma read_data_run {K} (data : Document K) :
  read_data data = run (statement data <$> keys).
Proof. reflexivity. Qed.

Lemma section_objects_Some {K} (T : Type) `{!Model Raw DecodeError T}
    (key : string) (entry : option (list (K * Raw))) (objects : list T)
    (set : list T → M unit) self :
  section_objects T entry = Some objects →
  load_section T key entry set self = set objects self.
Proof.
  unfold section_objects, load_section, bind, eval, getitem.
  destruct entry as [c|]; [|done].
  destruct (create_objects_from_configuration_data T c); [done|].
  by intros [= ->].
Qed.

Lemma read_data_decodes {K} (data : Document K) g a :
  decodes data g →
  fst (read_data data a) = verdict g ∧
  (first_failure g (table g) = None → snd (read_data data a) = install g a).
Proof.
  intros [Hseed Htm Hst Hpr Hqu Hre Hma Hsi Hso].
  remember (read_data data a) as res eqn:Hres. revert Hres.
  unfold read_data, verdict. cbn [first_failure table].
  unfold bind at 1 2. rewrite Hseed. simpl.
  unfold bind at 1. rewrite (section_objects_Some _ _ _ _ _ _ Htm). simpl.
  unfold bind at 1. rewrite (section_objects_Some _ _ _ _ _ _ Hst).
  unfold set_state_data.
  rewrite (validated_setattr_reports g state_entity)
    by (intros; by apply check_states_report).
  destruct (reports g 0 (state_entity <$> state_data g)) eqn:E1;
    [|by intros ->].
  unfold bind at 1. rewrite (section_objects_Some _ _ _ _ _ _ Hpr).
  unfold set_process_data.
  rewrite (validated_setattr_reports g process_entity)
    by (intros; by apply check_processes_report).
  destruct (reports g 0 (process_entity <$> process_data g)) eqn:E2;
    [|by intros ->].
  unfold bind at 1. rewrite (section_objects_Some _ _ _ _ _ _ Hqu). simpl.
  unfold bind at 1. rewrite (section_objects_Some _ _ _ _ _ _ Hre).
  unfold set_resource_data.
  rewrite (validated_setattr_reports g resource_entity)
    by (intros; by apply check_resources_report).
  destruct (reports g 0 (resource_entity <$> resource_data g)) eqn:E3;
    [|by intros ->].
  unfold bind at 1. rewrite (section_objects_Some _ _ _ _ _ _ Hma).
  unfold set_material_data.
  rewrite (validated_setattr_reports g material_entity)
    by (intros; by apply check_materials_report).
  destruct (reports g 0 (material_entity <$> material_data g)) eqn:E4;
    [|by intros ->].
  unfold bind at 1. rewrite (section_objects_Some _ _ _ _ _ _ Hsi).
  unfold set_sink_data.
  rewrite (validated_setattr_reports g sink_entity)
    by (intros; by apply check_sinks_report).
  destruct (reports g 0 (sink_entity <$> sink_data g)) eqn:E5;
    [|by intros ->].
  rewrite (section_objects_Some _ _ _ _ _ _ Hso).
  unfold set_source_data.
  rewrite (validated_setattr_reports g source_entity)
    by (intros; by apply check_sources_report).
  destruct (reports g 0 (source_entity <$> source_data g)) eqn:E6;
    by intros ->.
Qed.

(** ** Sequences of statements *)

Lemma run_cons (c : M unit) (cs : list (M unit)) a :
  run (c :: cs) a =
    match c a with
    | (inl e, a') => (inl e, a')
    | (inr _, a') => run cs a'
    end.
Proof.
  destruct cs; simpl.
  - by destruct (c a) as [[e|[]] a'].
  - unfold bind. by destruct (c a) as [[e|[]] a'].
Qed.

Lemma run_success (cs : list (M unit)) a :
  fst (run cs a) = inr tt → Forall (λ c, ∃ s s', c s = (inr tt, s')) cs.
Proof.
  revert a. induction cs as [|c cs IH]; intros a; [by constructor|].
  rewrite run_cons. destruct (c a) as [[e|[]] a'] eqn:Hc; [done|].
  intros H. constructor; [by exists a, a' | by eapply IH].
Qed.

Lemma run_app_success (cs cs' : list (M unit)) a a' :
  run cs a = (inr tt, a') → run (cs ++ cs') a = run cs' a'.
Proof.
  revert a. induction cs as [|c cs IH]; intros a; simpl app.
  - simpl. by intros [= ->].
  - rewrite !run_cons. destruct (c a) as [[e|[]] a'']; [done|]. apply IH.
Qed.

Lemma run_failure (cs : list (M unit)) a :
  Exists (λ c, ∀ s, ∃ e, fst (c s) = inl e) cs → ∃ e, fst (run cs a) = inl e.
Proof.
  revert a. induction cs as [|c cs IH]; intros a H; [by inversion H|].
  rewrite run_cons. destruct (c a) as [[e|[]] a'] eqn:Hc; [by exists e|].
  inversion H as [? ? Hhd|? ? Htl]; subst.
  - destruct (Hhd a) as [e He]. by rewrite Hc in He.
  - by apply IH.
Qed.

Lemma load_section_success {K} (T : Type) `{!Model Raw DecodeError T}
    (key : string) (entry : option (list (K * Raw))) (set : list T → M unit)
    s s' :
  load_section T key entry set s = (inr tt, s') →
  ∃ objects, section_objects T entry = Some objects.
Proof.
  unfold load_section, section_objects, bind, eval, getitem.
  destruct entry as [c|]; [|done].
  destruct (create_objects_from_configuration_data T c) as [e|objects];
    [done | by exists objects].
Qed.

Lemma elem_of_keys (k : Key) : k ∈ keys.
Proof. unfold keys. destruct k; repeat constructor. Qed.

Lemma read_data_success_statement {K} (data : Document K) a (k : Key) :
  fst (read_data data a) = inr tt → ∃ s s', statement data k s = (inr tt, s').
Proof.
  rewrite read_data_run. intros H. apply run_success in H.
  rewrite Forall_fmap, Forall_forall in H. apply H, elem_of_keys.
Qed.

Lemma read_data_success_decodes {K} (data : Document K) a :
  fst (read_data data a) = inr tt → ∃ g, decodes data g.
Proof.
  intros H.
  assert (∃ v, doc_seed data = Some v) as [v Hv].
  { destruct (read_data_success_statement data a KSeed H) as (s & s' & Hc).
    unfold statement, bind, eval, getitem in Hc.
    destruct (doc_seed data) as [v|]; [by exists v | done]. }
  destruct (read_data_success_statement data a KTimeModels H) as (? & ? & Htm).
  destruct (read_data_success_statement data a KStates H) as (? & ? & Hst).
  destruct (read_data_success_statement data a KProcesses H) as (? & ? & Hpr).
  destruct (read_data_success_statement data a KQueues H) as (? & ? & Hqu).
  destruct (read_data_success_statement data a KResources H) as (? & ? & Hre).
  destruct (read_data_success_statement data a KMaterials H) as (? & ? & Hma).
  destruct (read_data_success_statement data a KSinks H) as (? & ? & Hsi).
  destruct (read_data_success_statement data a KSources H) as (? & ? & Hso).
  apply load_section_success in Htm as [tm Htm], Hst as [st Hst],
    Hpr as [pr Hpr], Hqu as [qu Hqu], Hre as [re Hre], Hma as [ma Hma],
    Hsi as [si Hsi], Hso as [so Hso].
  exists {| valid_configuration := valid_configuration a;
            reconfiguration_cost := reconfiguration_cost a;
            time_model_data := tm; state_data := st; process_data := pr;
            queue_data := qu; resource_data := re; material_data := ma;
            sink_data := si; source_data := so; seed := v |}.
  by constructor.
Qed.

(** ** The table and the wording of the specification *)

Lemma report_None g o : report g o = None ↔ clean g o.
Proof.
  unfold report, clean. rewrite fmap_None, first_dangling_None, Forall_forall.
  done.
Qed.

Lemma Forall_refs_to (P : Reference → Prop) (field : string) (c : Collection)
    (l : list string) :
  Forall P (refs_to field c l) ↔
  ∀ y, y ∈ l → P {| field_noun := field; target := y; within := c |}.
Proof. unfold refs_to. by rewrite Forall_fmap, Forall_forall. Qed.

Lemma not_dangling g (field y : string) (c : Collection) :
  ¬ dangling g {| field_noun := field; target := y; within := c |} ↔
  y ∈ IDs_of g c.
Proof. unfold dangling; simpl. split; [apply dec_stable | tauto]. Qed.

Lemma refs_to_clean g (field : string) (c : Collection) (l : list string) :
  Forall (λ r, ¬ dangling g r) (refs_to field c l) ↔ ∀ y, y ∈ l → y ∈ IDs_of g c.
Proof.
  rewrite Forall_refs_to. split; intros H y Hy; by apply (not_dangling g field), H.
Qed.

Lemma refs_to_clean_one g (field : string) (c : Collection) (y : string) :
  Forall (λ r, ¬ dangling g r) (refs_to field c [y]) ↔ y ∈ IDs_of g c.
Proof.
  rewrite refs_to_clean. split; [intros H; apply H; by left|].
  intros H z Hz. apply list_elem_of_singleton in Hz. by subst.
Qed.

Lemma clean_state g (s : STATE_DATA_UNION) :
  clean g (state_entity s) ↔ resolves (time_model_data g) (state_time_model_id s).
Proof.
  unfold clean, state_entity; cbn [references]. by rewrite refs_to_clean_one, <- elem_of_get_set_of_IDs.
Qed.

Lemma clean_process g (p : PROCESS_DATA_UNION) :
  clean g (process_entity p) ↔
  resolves (time_model_data g) (process_time_model_id p).
Proof.
  unfold clean, process_entity; cbn [references]. by rewrite refs_to_clean_one, <- elem_of_get_set_of_IDs.
Qed.

Lemma clean_resource g (x : RESOURCE_DATA_UNION) :
  clean g (resource_entity x) ↔
  (∀ y, y ∈ resource_processes x → resolves (process_data g) y) ∧
  (∀ y, y ∈ resource_states x → resolves (state_data g) y) ∧
  (∀ input_queues output_queues y,
     production_queues x = Some (input_queues, output_queues) →
     y ∈ input_queues ++ output_queues → resolves (queue_data g) y).
Proof.
  unfold clean, resource_entity; cbn [references]. rewrite !Forall_app, !refs_to_clean; simpl.
  setoid_rewrite <- elem_of_get_set_of_IDs.
  destruct (production_queues x) as [[iq oq]|].
  - rewrite refs_to_clean; simpl. split.
    + intros (Hp & Hs & Hq). split_and!; [done..|].
      intros ? ? y [= <- <-]. apply Hq.
    + intros (Hp & Hs & Hq). split_and!; [done..|]. intros y. by apply Hq.
  - split.
    + intros (Hp & Hs & _). by split_and!.
    + intros (Hp & Hs & _). split_and!; [done..|]. constructor.
Qed.

Lemma clean_material g (m : MaterialData) :
  clean g (material_entity m) ↔
  resolves (process_data g) (material_transport_process m) ∧
  (∀ l y, material_processes m = Some l → y ∈ l → resolves (process_data g) y).
Proof.
  unfold clean, material_entity; cbn [references]. rewrite Forall_app, refs_to_clean_one; simpl.
  setoid_rewrite <- elem_of_get_set_of_IDs.
  destruct (material_processes m) as [l|].
  - rewrite refs_to_clean; simpl. split.
    + intros (Ht & Hl). split; [done|]. intros ? y [= <-]. apply Hl.
    + intros (Ht & Hl). split; [done|]. intros y. by apply Hl.
  - split.
    + intros (Ht & _). by split.
    + intros (Ht & _). split; [done|]. constructor.
Qed.

Lemma clean_sink g (s : SinkData) :
  clean g (sink_entity s) ↔
  resolves (material_data g) (sink_material_type s) ∧
  (∀ y, y ∈ sink_input_queues s → resolves (queue_data g) y).
Proof.
  unfold clean, sink_entity; cbn [references]. rewrite Forall_app, refs_to_clean_one, refs_to_clean; simpl.
  by setoid_rewrite <- elem_of_get_set_of_IDs.
Qed.

Lemma clean_source g (s : SourceData) :
  clean g (source_entity s) ↔
  resolves (time_model_data g) (source_time_model_id s) ∧
  resolves (material_data g) (source_material_type s) ∧
  (∀ y, y ∈ source_output_queues s → resolves (queue_data g) y).
Proof.
  unfold clean, source_entity; cbn [references].
  rewrite !Forall_app, !refs_to_clean_one, refs_to_clean; simpl.
  by setoid_rewrite <- elem_of_get_set_of_IDs.
Qed.

Lemma references_resolve_table g :
  references_resolve g ↔ Forall (λ entry, Forall (clean g) entry.2) (table g).
Proof.
  unfold table. rewrite !Forall_cons, Forall_nil; simpl.
  rewrite !Forall_fmap, !Forall_forall.
  setoid_rewrite clean_state. setoid_rewrite clean_process.
  setoid_rewrite clean_resource. setoid_rewrite clean_material.
  setoid_rewrite clean_sink. setoid_rewrite clean_source.
  split.
  - intros []. split_and!; try done; intros x Hx; split_and!; eauto.
  - intros (Hst & Hpr & Hre & Hma & Hsi & Hso & _).
    constructor; intros.
    + by apply Hst.
    + by apply Hpr.
    + by eapply (Hre r).
    + by eapply (Hre r).
    + by eapply (Hre r).
    + by apply Hma.
    + by eapply (Hma m).
    + by apply Hsi.
    + by apply (Hsi s).
    + by apply Hso.
    + by apply Hso.
    + by apply (Hso s).
Qed.

Lemma first_failure_None g (t : list (string * list Entity)) :
  first_failure g t = None ↔ Forall (λ entry, Forall (clean g) entry.2) t.
Proof.
  induction t as [|[loc owners] t IH]; simpl.
  - split; [constructor | done].
  - rewrite Forall_cons; simpl. rewrite <- IH.
    destruct (reports g 0 owners) eqn:E.
    + rewrite reports_nil in E. split; [|tauto].
      intros H. split; [|done]. apply Forall_forall. intros o Ho.
      by apply report_None, E.
    + split; [done|]. intros [H _]. exfalso.
      assert (reports g 0 owners = []) as E'; [|by rewrite E' in E].
      apply reports_nil. intros o Ho. apply report_None.
      by eapply Forall_forall in H.
Qed.

Lemma first_failure_Some g (t : list (string * list Entity)) loc errors :
  first_failure g t = Some (loc, errors) →
  ∃ before owners after,
    t = before ++ (loc, owners) :: after ∧
    Forall (λ entry, Forall (clean g) entry.2) before ∧
    errors = reports g 0 owners ∧ errors ≠ [].
Proof.
  induction t as [|[loc' owners] t IH]; simpl; [done|].
  destruct (reports g 0 owners) eqn:E.
  - intros H. destruct (IH H) as (before & owners' & after & -> & Hb & He & Hn).
    exists ((loc', owners) :: before), owners', after.
    split_and!; [done| |done..]. constructor; [|done]. simpl.
    apply Forall_forall. intros o Ho. apply report_None.
    rewrite reports_nil in E. by apply E.
  - intros [= <- <-]. exists [], owners, t. split_and!; [done| constructor |done..].
Qed.

Lemma references_resolve_verdict g :
  references_resolve g ↔ first_failure g (table g) = None.
Proof. by rewrite first_failure_None, references_resolve_table. Qed.

Lemma references_resolve_same g g' :
  same_graph g g' → references_resolve g → references_resolve g'.
Proof.
  intros [Hseed Htm Hst Hpr Hqu Hre Hma Hsi Hso] [].
  constructor; rewrite ?Htm, ?Hst, ?Hpr, ?Hqu, ?Hre, ?Hma, ?Hsi, ?Hso; eauto.
Qed.

Lemma same_graph_install g a : same_graph g (install g a).
Proof. by constructor. Qed.

(** ** Load *)

(** C1: when [read_data] returns without raising, every reference field of
    every entity of the adapter resolves within the adapter's own
    collections: time models of states, processes and sources; processes,
    states and (for the production variant) queues of resources; transport
    process and listed processes of materials; material and queues of sinks
    and sources. *)
Theorem read_data_references_resolve {K} (data : Document K) a :
  fst (read_data data a) = inr tt →
  references_resolve (snd (read_data data a)).
Proof.
  intros Hok. destruct (read_data_success_decodes data a Hok) as [g Hg].
  destruct (read_data_decodes data g a Hg) as [Hv Hs].
  rewrite Hok in Hv. unfold verdict in Hv.
  destruct (first_failure g (table g)) as [[loc errors]|] eqn:E; [done|].
  rewrite (Hs eq_refl).
  apply (references_resolve_same g); [apply same_graph_install|].
  by apply references_resolve_verdict.
Qed.

(** C2, amended: when the document has all sections, its records decode to
    graph [g] and some reference of [g] dangles, [read_data] raises the
    validation error of the first collection with a dangling reference; its
    first entry is the DanglingReference error of the first dangling
    reference [r] of the first entity [owner] of that collection that has
    one: it carries the entity's kind and ID, the noun of the field, the
    target ID and the set of valid IDs.  References after the first one are
    not promised to be named. *)
Theorem first_dangling_reference_reported {K} (data : Document K) g a :
  decodes data g → ¬ references_resolve g →
  ∃ loc i owner r errors,
    fst (read_data data a) =
      inl (ValidationError loc ((i, dangling_reference g owner r) :: errors)) ∧
    first_dangling_at g loc i owner r.
Proof.
  intros Hg Hdangling. destruct (read_data_decodes data g a Hg) as [Hv _].
  rewrite Hv. unfold verdict.
  destruct (first_failure g (table g)) as [[loc errors]|] eqn:E;
    [|by apply references_resolve_verdict in E].
  destruct (first_failure_Some _ _ _ _ E)
    as (before & owners & after & Ht & Hb & He & Hn).
  destruct errors as [|[i e] errors]; [done|]. symmetry in He.
  destruct (reports_cons _ _ _ _ _ _ He) as (k & owner & Hi & Hk & Hr & Hc).
  simpl in Hi. subst i. unfold report in Hr.
  destruct (first_dangling g (references owner)) as [r|] eqn:Er; [|done].
  injection Hr as <-.
  destruct (first_dangling_Some _ _ _ Er) as (rb & ra & Hrefs & Hd & Hrb).
  exists loc, k, owner, r, errors. split; [done|].
  exists before, owners, after, rb, ra. split_and!; try done.
  - apply Forall_forall. intros o Ho. by apply report_None, Hc.
  - by apply Forall_forall.
Qed.

(** ** Dump and load *)

Lemma create_objects_imap {K} (T : Type) `{!Model Raw DecodeError T}
    (entry : nat → T → K * Raw) (l : list T) :
  (∀ i x, (entry i x).2 = dict x) →
  reparses_all l →
  create_objects_from_configuration_data T (imap entry l) = inr l.
Proof.
  revert entry. induction l as [|x l IH]; intros entry Hentry Hl; simpl; [done|].
  apply Forall_cons in Hl as [Hx Hl].
  specialize (Hentry 0 x) as Hv. destruct (entry 0 x) as [k v]. simpl in Hv.
  subst v. rewrite Hx. rewrite IH; [done| |done].
  intros i y. apply Hentry.
Qed.

Lemma section_objects_dump {K} (T : Type) `{!Model Raw DecodeError T}
    (f : nat → K) (l : list T) :
  reparses_all l →
  section_objects T (rekey_section f (Some (get_dict_of_list_objects l))) = Some l.
Proof.
  intros Hl. unfold rekey_section, get_dict_of_list_objects; simpl.
  rewrite fmap_imap. by rewrite create_objects_imap.
Qed.

Lemma decodes_dump {K} (f : nat → K) g :
  reparses g → decodes (rekey f (get_dict_object_of_adapter g)) g.
Proof.
  intros []. constructor; simpl; [done|..]; by apply section_objects_dump.
Qed.

(** C3: for a graph [g] whose references resolve (and whose entities decode
    back from their own [.dict()]), loading the dumped document, under any
    relabelling [f] of the positional record keys, succeeds and yields an
    adapter with the same eight collections and the same seed. *)
Theorem dump_load_roundtrip {K} (f : nat → K) g a :
  references_resolve g → reparses g →
  ∃ g', read_data (rekey f (get_dict_object_of_adapter g)) a = (inr tt, g') ∧
        same_graph g g'.
Proof.
  intros Hresolve Hreparse. exists (install g a). split; [|by constructor].
  destruct (read_data_decodes _ g a (decodes_dump f g Hreparse)) as [Hv Hs].
  apply references_resolve_verdict in Hresolve.
  unfold verdict in Hv. rewrite Hresolve in Hv. specialize (Hs Hresolve).
  destruct (read_data _ a) as [res g']. simpl in *. by subst.
Qed.

(** ** Single validators *)

Lemma outcome_inr {T} (e : option ValueError) (x : T) :
  outcome e x = inr x ↔ e = None.
Proof. destruct e; simpl; split; done. Qed.

Lemma outcome_not_inr {T} (e : option ValueError) (x : T) :
  outcome e x ≠ inr x → ∃ e', outcome e x = inl e'.
Proof. destruct e as [e'|]; simpl; [by exists e' | done]. Qed.

(** C4: the validator of a material always checks [transport_process]
    against the process IDs; when that resolves, a material whose
    [processes] is absent passes whatever the process collection holds, one
    whose [processes] is the empty list passes, and one whose [processes]
    holds an ID that is not a process ID is rejected with the error naming
    the material and the first such ID. *)
Theorem material_optional_processes values (m : MaterialData) :
  let processes := get_set_of_IDs (process_data values) in
  (material_transport_process m ∉ processes →
     check_materials values m =
       inl {| ref_name := "transport process";
              ref := material_transport_process m;
              owner_kind := "material"; owner_ID := ID m;
              valid_kind := "process"; valid_IDs := processes |}) ∧
  (material_transport_process m ∈ processes →
     (material_processes m = None → check_materials values m = inr m) ∧
     (material_processes m = Some [] → check_materials values m = inr m) ∧
     (∀ l y, material_processes m = Some l → y ∈ l → y ∉ processes →
        ∃ y', y' ∈ l ∧ (y' ∉ processes) ∧
          check_materials values m =
            inl {| ref_name := "process"; ref := y';
                   owner_kind := "material"; owner_ID := ID m;
                   valid_kind := "process"; valid_IDs := processes |})).
Proof.
  intros processes. unfold check_materials. fold processes. split.
  - intros Ht. by rewrite decide_True.
  - intros Ht. rewrite decide_False by tauto. split_and!.
    + by intros ->.
    + by intros ->.
    + intros l y -> Hy Hmissing.
      destruct (first_not_in l processes) as [y'|] eqn:E.
      * destruct (first_not_in_Some _ _ _ E) as (before & after & -> & Hy' & _).
        exists y'. split_and!; [|done..].
        apply elem_of_app. right. by left.
      * exfalso. apply Hmissing. by eapply first_not_in_None.
Qed.

(** C5: the validator of a resource accepts a resource that is not of the
    production variant exactly when its processes and states resolve, and
    its verdict does not depend on the queues; it accepts a resource of the
    production variant exactly when, in addition, every entry of
    [input_queues + output_queues] is the ID of a queue.  A resource that is
    not accepted is rejected with an error. *)
Theorem resource_variant_dispatch values (x : RESOURCE_DATA_UNION) :
  let base :=
    (∀ y, y ∈ resource_processes x → resolves (process_data values) y) ∧
    (∀ y, y ∈ resource_states x → resolves (state_data values) y) in
  (production_queues x = None →
     (check_resources values x = inr x ↔ base) ∧
     (∀ queues, check_resources (with_queue_data queues values) x =
                check_resources values x)) ∧
  (∀ input_queues output_queues,
     production_queues x = Some (input_queues, output_queues) →
     (check_resources values x = inr x ↔
        base ∧ ∀ y, y ∈ input_queues ++ output_queues →
                 resolves (queue_data values) y)) ∧
  (check_resources values x ≠ inr x → ∃ e, check_resources values x = inl e).
Proof.
  intros base.
  rewrite (check_resources_report values values) by done.
  split_and!.
  - intros Hq. split.
    + rewrite outcome_inr, report_None, clean_resource. unfold base.
      split; [by intros (Hp & Hs & _)|]. intros (Hp & Hs).
      split_and!; [done..|]. intros iq oq y. by rewrite Hq.
    + intros queues. rewrite <- (check_resources_report values values) by done.
      unfold check_resources. by rewrite Hq.
  - intros iq oq Hq.
    rewrite outcome_inr, report_None, clean_resource. unfold base. split.
    + intros (Hp & Hs & H). split_and!; [done..|]. intros y. by apply H.
    + intros ((Hp & Hs) & H). split_and!; [done..|].
      intros iq' oq' y. rewrite Hq. intros [= <- <-]. apply H.
  - apply outcome_not_inr.
Qed.

(** ** Duplicate IDs *)

Lemma create_objects_Forall2 {K} (T : Type) `{!Model Raw DecodeError T}
    (configuration_data : list (K * Raw)) (objects : list T) :
  create_objects_from_configuration_data T configuration_data = inr objects →
  Forall2 (λ kv x, parse_obj_as T kv.2 = inr x) configuration_data objects.
Proof.
  revert objects.
  induction configuration_data as [|[k v] c IH]; intros objects; simpl.
  - intros [= <-]. constructor.
  - destruct (parse_obj_as T v) as [e|x] eqn:Hx; [done|].
    destruct (create_objects_from_configuration_data T c) as [e|l]; [done|].
    intros [= <-]. constructor; [done | by apply IH].
Qed.

Lemma section_objects_record_for_record {K} (T : Type)
    `{!Model Raw DecodeError T} (entry : option (list (K * Raw)))
    (objects : list T) :
  section_objects T entry = Some objects → record_for_record entry objects.
Proof.
  unfold section_objects. destruct entry as [c|]; [|done].
  destruct (create_objects_from_configuration_data T c) as [e|l] eqn:E; [done|].
  intros [= <-]. exists c. split; [done | by apply create_objects_Forall2].
Qed.

(** C6, amended: IDs are not compared at load time.  Whenever the records
    of the document decode to [g] and the references of [g] resolve,
    [read_data] succeeds, whether or not two records of a collection share
    an ID, and every collection then holds one entity per record of its
    section, in document order. *)
Theorem load_keeps_every_record {K} (data : Document K) g a :
  decodes data g → references_resolve g →
  read_data data a = (inr tt, install g a) ∧
  one_entity_per_record data (install g a).
Proof.
  intros Hg Hresolve. split.
  - destruct (read_data_decodes data g a Hg) as [Hv Hs].
    apply references_resolve_verdict in Hresolve.
    unfold verdict in Hv. rewrite Hresolve in Hv. specialize (Hs Hresolve).
    destruct (read_data data a) as [res g']. simpl in *. by subst.
  - destruct Hg. constructor; simpl; by apply section_objects_record_for_record.
Qed.

(** ** Missing sections *)

Lemma statement_absent {K} (data : Document K) (k : Key) s :
  absent data k → statement data k s = (inl (KeyError (key_name k)), s).
Proof.
  destruct k; simpl; intros H;
    unfold load_section, bind, eval; by rewrite H.
Qed.

(** C7, amended: when one of the nine keys is absent, [read_data] raises and
    so never completes the load.  The error is the [KeyError] of the absent
    key [k] whenever the statements for the keys read before [k] succeed;
    the adapter then keeps what those statements assigned.  (Otherwise an
    earlier statement raises its own error.) *)
Theorem missing_section_fails {K} (data : Document K) (k : Key) a :
  absent data k →
  (∃ e, fst (read_data data a) = inl e) ∧
  (∀ before after a',
     keys = before ++ k :: after →
     run (statement data <$> before) a = (inr tt, a') →
     read_data data a = (inl (KeyError (key_name k)), a')).
Proof.
  intros Habsent. rewrite read_data_run. split.
  - apply run_failure, Exists_exists. exists (statement data k). split.
    + apply list_elem_of_fmap. exists k. split; [done | apply elem_of_keys].
    + intros s. rewrite statement_absent by done. by eexists.
  - intros before after a' -> Hbefore.
    rewrite fmap_app, (run_app_success _ _ _ _ Hbefore). simpl fmap.
    by rewrite run_cons, statement_absent.
Qed.

(** ** The validity flag *)

Lemma keeps_flag_bind {A B} (c : M A) (k : A → M B) :
  keeps_flag c → (∀ x, keeps_flag (k x)) → keeps_flag (x <- c ;; k x).
Proof.
  intros Hc Hk s. unfold bind. specialize (Hc s).
  destruct (c s) as [[e|x] s']; simpl in *; [done|]. by rewrite Hk.
Qed.

Lemma keeps_flag_eval {A} (r : Exception + A) : keeps_flag (eval r).
Proof. by intros s. Qed.

Lemma keeps_flag_plain {V} (set : V → Adapter → Adapter) (value : V) :
  (∀ v s, valid_configuration (set v s) = valid_configuration s) →
  keeps_flag (plain_setattr set value).
Proof. intros Hset s. apply Hset. Qed.

Lemma keeps_flag_validated {T} (name : string)
    (check : Adapter → T → ValueError + T) (set : list T → Adapter → Adapter)
    (value : list T) :
  (∀ v s, valid_configuration (set v s) = valid_configuration s) →
  keeps_flag (validated_setattr name check set value).
Proof.
  intros Hset s. unfold validated_setattr.
  destruct (validate_each (check s) 0 value) as [[|e errors] result]; simpl; auto.
Qed.

Lemma keeps_flag_load_section {K} (T : Type) `{!Model Raw DecodeError T}
    (key : string) (entry : option (list (K * Raw))) (set : list T → M unit) :
  (∀ objects, keeps_flag (set objects)) →
  keeps_flag (load_section T key entry set).
Proof.
  intros Hset. unfold load_section.
  repeat (apply keeps_flag_bind; [apply keeps_flag_eval | intros ?]).
  apply Hset.
Qed.

Lemma keeps_flag_statement {K} (data : Document K) (k : Key) :
  keeps_flag (statement data k).
Proof.
  destruct k; simpl;
    [apply keeps_flag_bind; [apply keeps_flag_eval | intros v]
    | apply keeps_flag_load_section; intros objects ..];
    first [ by apply keeps_flag_plain | by apply keeps_flag_validated ].
Qed.

Lemma keeps_flag_run (cs : list (M unit)) :
  Forall keeps_flag cs → keeps_flag (run cs).
Proof.
  induction cs as [|c cs IH]; intros Hcs s; [done|].
  apply Forall_cons in Hcs as [Hc Hcs]. rewrite run_cons. specialize (Hc s).
  destruct (c s) as [[e|[]] s']; simpl in *; [done|]. by rewrite IH.
Qed.

(** C8, amended: [valid_configuration] is [True] by default, from
    construction on, and nothing in the load writes it: after [read_data],
    whether it succeeded or raised, the flag holds what it held before. *)
Theorem valid_configuration_not_written {K} (data : Document K) a :
  valid_configuration JsonAdapter = true ∧
  valid_configuration (snd (read_data data a)) = valid_configuration a.
Proof.
  split; [done|]. rewrite read_data_run. apply keeps_flag_run.
  apply Forall_fmap, Forall_forall. intros k _. apply keeps_flag_statement.
Qed.

(** ** Assignment after load *)

Lemma validated_setattr_success {T} (view : T → Entity) (name : string)
    (check : Adapter → T → ValueError + T) (set : list T → Adapter → Adapter)
    (v : list T) self :
  (∀ x, check self x = outcome (report self (view x)) x) →
  (fst (validated_setattr name check set v self) = inr tt ↔
     ∀ x, x ∈ v → clean self (view x)) ∧
  (fst (validated_setattr name check set v self) = inr tt →
     snd (validated_setattr name check set v self) = set v self) ∧
  (fst (validated_setattr name check set v self) ≠ inr tt →
     snd (validated_setattr name check set v self) = self).
Proof.
  intros Hcheck. rewrite (validated_setattr_reports self view) by done.
  destruct (reports self 0 (view <$> v)) as [|e errors] eqn:E; simpl.
  - split_and!; [|done..]. split; [|done]. intros _ x Hx.
    rewrite reports_nil in E. apply report_None, E.
    apply list_elem_of_fmap. by exists x.
  - split_and!; [|done..]. split; [done|]. intros H. exfalso.
    assert (reports self 0 (view <$> v) = []) as E'; [|by rewrite E' in E].
    apply reports_nil. intros o Ho. apply list_elem_of_fmap in Ho as (x & -> & Hx).
    by apply report_None, H.
Qed.

(** C9: assigning a collection field of an adapter runs that field's
    validator on every item against the adapter's current other
    collections: the assignment succeeds exactly when every item's
    references resolve there, and otherwise raises and leaves the adapter as
    it was.  In particular, where no time model has ID [tm2], assigning the
    state collection [[s]] with [s.ID = s1] and [s.time_model_id = tm2]
    raises the error naming state [s1], the time model and [tm2]. *)
Theorem assignment_revalidates self :
  (∀ v, fst (set_state_data v self) = inr tt ↔
        ∀ s, s ∈ v → resolves (time_model_data self) (state_time_model_id s)) ∧
  (∀ v, fst (set_process_data v self) = inr tt ↔
        ∀ p, p ∈ v → resolves (time_model_data self) (process_time_model_id p)) ∧
  (∀ v, fst (set_resource_data v self) = inr tt ↔
        ∀ x, x ∈ v → clean self (resource_entity x)) ∧
  (∀ v, fst (set_material_data v self) = inr tt ↔
        ∀ x, x ∈ v → clean self (material_entity x)) ∧
  (∀ v, fst (set_sink_data v self) = inr tt ↔
        ∀ x, x ∈ v → clean self (sink_entity x)) ∧
  (∀ v, fst (set_source_data v self) = inr tt ↔
        ∀ x, x ∈ v → clean self (source_entity x)) ∧
  (∀ v, fst (set_state_data v self) ≠ inr tt →
        snd (set_state_data v self) = self) ∧
  (∀ s, "tm2" ∉ get_set_of_IDs (time_model_data self) →
        ID s = "s1" → state_time_model_id s = "tm2" →
        set_state_data [s] self =
          (inl (ValidationError "state_data"
                  [(0, {| ref_name := "time model"; ref := "tm2";
                          owner_kind := "state"; owner_ID := "s1";
                          valid_kind := "time model";
                          valid_IDs := get_set_of_IDs (time_model_data self) |})]),
           self)).
Proof.
  split_and!.
  - intros v. unfold set_state_data.
    destruct (validated_setattr_success state_entity "state_data" check_states
                with_state_data v self) as [-> _];
      [intros; by apply check_states_report|].
    by setoid_rewrite clean_state.
  - intros v. unfold set_process_data.
    destruct (validated_setattr_success process_entity "process_data"
                check_processes with_process_data v self) as [-> _];
      [intros; by apply check_processes_report|].
    by setoid_rewrite clean_process.
  - intros v.
    by apply (validated_setattr_success resource_entity); intros;
      apply check_resources_report.
  - intros v.
    by apply (validated_setattr_success material_entity); intros;
      apply check_materials_report.
  - intros v.
    by apply (validated_setattr_success sink_entity); intros;
      apply check_sinks_report.
  - intros v.
    by apply (validated_setattr_success source_entity); intros;
      apply check_sources_report.
  - intros v.
    by apply (validated_setattr_success state_entity); intros;
      apply check_states_report.
  - intros s Hmissing Hid Htm.
    unfold set_state_data, validated_setattr; simpl. unfold check_states.
    rewrite Htm, Hid. by rewrite decide_True.
Qed.

Lemma validated_setattr_ok {T} (view : T → Entity) (name : string)
    (check : Adapter → T → ValueError + T) (set : list T → Adapter → Adapter)
    (v : list T) self :
  (∀ x, check self x = outcome (report self (view x)) x) →
  (∀ x, x ∈ v → clean self (view x)) →
  validated_setattr name check set v self = (inr tt, set v self).
Proof.
  intros Hcheck Hclean. rewrite (validated_setattr_reports self view) by done.
  assert (reports self 0 (view <$> v) = []) as ->; [|done].
  apply reports_nil. intros o Ho. apply list_elem_of_fmap in Ho as (x & -> & Hx).
  by apply report_None, Hclean.
Qed.

(** C10: an assignment checks only the assigned field, never the fields
    that refer to it.  Any list of time models or of queues can be assigned,
    and any list of processes or materials whose own references resolve
    (the empty list among them); the assignment succeeds, leaves
    [valid_configuration] as it was, and when an existing state, resource,
    material, sink or source refers to an ID that the new list lacks, the
    adapter's references no longer resolve. *)
Theorem assignment_skips_dependents self :
  (∀ v,
     set_time_model_data v self = (inr tt, with_time_model_data v self) ∧
     valid_configuration (with_time_model_data v self) = valid_configuration self ∧
     (∀ s, s ∈ state_data self → ¬ resolves v (state_time_model_id s) →
           ¬ references_resolve (with_time_model_data v self)) ∧
     (∀ s, s ∈ source_data self → ¬ resolves v (source_time_model_id s) →
           ¬ references_resolve (with_time_model_data v self))) ∧
  (∀ v,
     set_queue_data v self = (inr tt, with_queue_data v self) ∧
     valid_configuration (with_queue_data v self) = valid_configuration self ∧
     (∀ s y, s ∈ sink_data self → y ∈ sink_input_queues s → ¬ resolves v y →
             ¬ references_resolve (with_queue_data v self)) ∧
     (∀ s y, s ∈ source_data self → y ∈ source_output_queues s →
             ¬ resolves v y →
             ¬ references_resolve (with_queue_data v self))) ∧
  (∀ v,
     (∀ p, p ∈ v → resolves (time_model_data self) (process_time_model_id p)) →
     set_process_data v self = (inr tt, with_process_data v self) ∧
     valid_configuration (with_process_data v self) = valid_configuration self ∧
     (∀ x y, x ∈ resource_data self → y ∈ resource_processes x →
             ¬ resolves v y →
             ¬ references_resolve (with_process_data v self)) ∧
     (∀ m, m ∈ material_data self →
           ¬ resolves v (material_transport_process m) →
           ¬ references_resolve (with_process_data v self))) ∧
  (∀ v,
     (∀ m, m ∈ v → clean self (material_entity m)) →
     set_material_data v self = (inr tt, with_material_data v self) ∧
     valid_configuration (with_material_data v self) = valid_configuration self ∧
     (∀ s, s ∈ sink_data self → ¬ resolves v (sink_material_type s) →
           ¬ references_resolve (with_material_data v self)) ∧
     (∀ s, s ∈ source_data self → ¬ resolves v (source_material_type s) →
           ¬ references_resolve (with_material_data v self))).
Proof.
  split_and!.
  - intros v. split_and!; [done..| |].
    + intros s Hs Hmissing H. by apply Hmissing, (state_time_model _ H).
    + intros s Hs Hmissing H. by apply Hmissing, (source_time_model _ H).
  - intros v. split_and!; [done..| |].
    + intros s y Hs Hy Hmissing H. by apply Hmissing, (sink_queue _ H s).
    + intros s y Hs Hy Hmissing H. by apply Hmissing, (source_queue _ H s).
  - intros v Hv. split_and!; [|done| |].
    + apply (validated_setattr_ok process_entity);
        [intros; by apply check_processes_report|].
      intros p Hp. by apply clean_process, Hv.
    + intros x y Hx Hy Hmissing H. by apply Hmissing, (resource_process _ H x).
    + intros m Hm Hmissing H. by apply Hmissing, (material_transport _ H).
  - intros v Hv. split_and!; [|done| |].
    + by apply (validated_setattr_ok material_entity);
        [intros; apply check_materials_report|].
    + intros s Hs Hmissing H. by apply Hmissing, (sink_material _ H).
    + intros s Hs Hmissing H. by apply Hmissing, (source_material _ H).
Qed.

End Properties.

(** * Further properties *)

Section MoreProperties.
Context `{ds : DataStructures}.

Implicit Types (g self values : Adapter).

(** ** Statements of [read_data], one at a time *)


Lemma run_failure_inv (cs : list (M unit)) a e :
  fst (run cs a) = inl e →
  ∃ before c after s,
    cs = before ++ c :: after ∧ run before a = (inr tt, s) ∧
    fst (c s) = inl e ∧ run cs a = (inl e, snd (c s)).
Proof.
  revert a. induction cs as [|c cs IH]; intros a; [done|].
  rewrite run_cons. destruct (c a) as [[e'|[]] a'] eqn:Hc; simpl.
  - intros [= ->]. exists [], c, cs, a. by rewrite Hc.
  - intros H. destruct (IH a' H) as (before & c' & after & s & -> & Hb & He & Hr).
    exists (c :: before), c', after, s.
    split_and!; [done | by rewrite run_cons, Hc | done | done].
Qed.

Lemma fmap_statement_split {K} (data : Document K) (ks : list Key)
    (before : list (M unit)) (c : M unit) (after : list (M unit)) :
  statement data <$> ks = before ++ c :: after →
  ∃ kb k ka, ks = kb ++ k :: ka ∧ before = statement data <$> kb ∧
             c = statement data k ∧ after = statement data <$> ka.
Proof.
  intros H. apply fmap_app_inv in H as (kb & ks' & -> & H & ->).
  symmetry in H. apply fmap_cons_inv in H as (k & ka & -> & -> & ->).
  by exists kb, k, ka.
Qed.

Lemma create_objects_raises_ParseError {K} (T : Type)
    `{!Model Raw DecodeError T} (configuration_data : list (K * Raw)) exc :
  create_objects_from_configuration_data T configuration_data = inl exc →
  ∃ pe, exc = ParseError pe.
Proof.
  induction configuration_data as [|[k v] c IH]; simpl; [done|].
  destruct (parse_obj_as T v) as [e|x]; [intros [= <-]; by exists e|].
  destruct (create_objects_from_configuration_data T c) as [exc'|l]; [|done].
  intros [= <-]. by apply IH.
Qed.

Lemma load_section_raises {K} (T : Type) `{!Model Raw DecodeError T}
    (key : string) (entry : option (list (K * Raw))) (set : list T → M unit)
    s e :
  fst (load_section T key entry set s) = inl e →
  (e = KeyError key ∧ entry = None ∧ snd (load_section T key entry set s) = s) ∨
  (∃ pe, e = ParseError pe ∧ entry ≠ None ∧
         snd (load_section T key entry set s) = s) ∨
  (∃ objects, entry ≠ None ∧ fst (set objects s) = inl e ∧
              snd (load_section T key entry set s) = snd (set objects s)).
Proof.
  unfold load_section, bind, eval, getitem.
  destruct entry as [c|]; simpl; [|intros [= <-]; by left].
  destruct (create_objects_from_configuration_data T c) as [exc|objects]
    eqn:Hcreate; simpl.
  - intros [= <-]. right; left.
    destruct (create_objects_raises_ParseError _ _ _ Hcreate) as [pe ->].
    by exists pe.
  - intros H. right; right. by exists objects.
Qed.

Lemma validated_setattr_raises {T} (name : string)
    (check : Adapter → T → ValueError + T) (set : list T → Adapter → Adapter)
    (v : list T) s e :
  fst (validated_setattr name check set v s) = inl e →
  (∃ errors, e = ValidationError name errors ∧ errors ≠ []) ∧
  snd (validated_setattr name check set v s) = s.
Proof.
  unfold validated_setattr.
  destruct (validate_each (check s) 0 v) as [[|err errors] result]; simpl;
    [done|].
  intros [= <-]. split; [|done]. by eexists.
Qed.

Ltac section_raises H :=
  apply load_section_raises in H
    as [(-> & Hentry & Hs)|[(pe & -> & Hentry & Hs)|(objects & Hentry & H & Hs)]];
  [ split; [by left | done]
  | split; [right; left; by exists pe | done]
  | ].

Ltac validated_raises H Hs :=
  rewrite Hs;
  unfold set_state_data, set_process_data, set_resource_data,
    set_material_data, set_sink_data, set_source_data in *;
  let errors := fresh "errors" in
  let Hn := fresh "Hn" in
  let Hs' := fresh "Hs'" in
  apply validated_setattr_raises in H as [(errors & -> & Hn) Hs'];
  rewrite Hs'; split; [|done]; right; right; by eexists _, _.

Lemma statement_raises {K} (data : Document K) (k : Key) s e :
  fst (statement data k s) = inl e →
  raised_by data k e ∧ snd (statement data k s) = s.
Proof.
  unfold raised_by. destruct k; simpl; intros H.
  - unfold bind, eval, getitem in *.
    destruct (doc_seed data); simpl in *; [done|].
    injection H as <-. split; [by left | done].
  - section_raises H. done.
  - section_raises H. validated_raises H Hs.
  - section_raises H. validated_raises H Hs.
  - section_raises H. done.
  - section_raises H. validated_raises H Hs.
  - section_raises H. validated_raises H Hs.
  - section_raises H. validated_raises H Hs.
  - section_raises H. validated_raises H Hs.
Qed.

(** ** Record keys *)




(** ** Outcomes of a load *)

Lemma read_data_success_graph {K} (data : Document K) a :
  fst (read_data data a) = inr tt →
  ∃ g, decodes data g ∧ references_resolve g.
Proof.
  intros Hok. destruct (read_data_success_decodes data a Hok) as [g Hg].
  exists g. split; [done|].
  destruct (read_data_decodes data g a Hg) as [Hv _].
  rewrite Hok in Hv. unfold verdict in Hv. apply references_resolve_verdict.
  by destruct (first_failure g (table g)) as [[loc errors]|].
Qed.

Lemma read_data_raised_by {K} (data : Document K) a e :
  fst (read_data data a) = inl e → ∃ k, raised_by data k e.
Proof.
  rewrite read_data_run. intros H.
  destruct (run_failure_inv _ _ _ H) as (before & c & after & s & Hks & _ & He & _).
  destruct (fmap_statement_split _ _ _ _ _ Hks) as (kb & k & ka & _ & _ & -> & _).
  exists k. by apply (statement_raises data k s e).
Qed.



(** X4: [create_objects_from_configuration_data] raises exactly when some
    record fails to decode, and the error is that of the first such record
    in document order. *)
Theorem create_objects_first_malformed {K} (T : Type)
    `{!Model Raw DecodeError T} (configuration_data : list (K * Raw)) exc :
  create_objects_from_configuration_data T configuration_data = inl exc ↔
  ∃ before kv after e,
    configuration_data = before ++ kv :: after ∧
    Forall (λ kv', ∃ x, parse_obj_as T kv'.2 = inr x) before ∧
    parse_obj_as T kv.2 = inl e ∧ exc = ParseError e.
Proof.
  split.
  - induction configuration_data as [|[k v] c IH]; simpl; [done|].
    destruct (parse_obj_as T v) as [e|x] eqn:Hv.
    + intros [= <-]. exists [], (k, v), c, e. by split_and!.
    + destruct (create_objects_from_configuration_data T c) as [exc'|l]; [|done].
      intros [= <-].
      destruct (IH eq_refl) as (before & kv & after & e & -> & Hb & He & ->).
      exists ((k, v) :: before), kv, after, e. split_and!; [done| |done..].
      constructor; [by exists x | done].
  - intros (before & kv & after & e & -> & Hb & He & ->).
    induction Hb as [|[k v] before [x Hx] _ IH]; simpl.
    + destruct kv as [k v]. simpl in He. by rewrite He.
    + simpl in Hx. by rewrite Hx, IH.
Qed.

(** X5: loading the same document a second time changes nothing: after a
    successful [read_data], another [read_data] of that document succeeds
    and leaves the adapter as it is. *)
Theorem read_data_idempotent {K} (data : Document K) a :
  fst (read_data data a) = inr tt →
  read_data data (snd (read_data data a)) = (inr tt, snd (read_data data a)).
Proof.
  intros Hok. apply read_data_success_graph in Hok as (g & Hg & Hresolve).
  apply references_resolve_verdict in Hresolve.
  assert (∀ a', read_data data a' = (inr tt, install g a')) as Hload.
  { intros a'. destruct (read_data_decodes data g a' Hg) as [Hv Hs].
    unfold verdict in Hv. rewrite Hresolve in Hv. specialize (Hs Hresolve).
    destruct (read_data data a') as [res g']. simpl in *. by subst. }
  by rewrite !Hload.
Qed.

(** ** Dumped documents *)

(** X6: [get_dict_object_of_adapter] does not validate.  For a graph whose
    entities decode back from their [.dict()], the dumped document loads
    again exactly when the references of the graph resolve; the dump of an
    adapter left inconsistent by assignments is rejected on load. *)
Theorem load_dump_iff {K} (f : nat → K) g a :
  reparses g →
  (fst (read_data (rekey f (get_dict_object_of_adapter g)) a) = inr tt ↔
   references_resolve g).
Proof.
  intros Hreparse.
  destruct (read_data_decodes _ g a (decodes_dump f g Hreparse)) as [-> _].
  rewrite references_resolve_verdict. unfold verdict.
  by destruct (first_failure g (table g)) as [[loc errors]|].
Qed.

(** X7: a dumped document has all nine keys: loading it never raises a
    [KeyError], whatever the adapter it was dumped from; it succeeds, or a
    record fails to decode, or a validator rejects a collection. *)
Theorem load_dump_no_KeyError {K} (f : nat → K) g a :
  fst (read_data (rekey f (get_dict_object_of_adapter g)) a) = inr tt ∨
  (∃ pe, fst (read_data (rekey f (get_dict_object_of_adapter g)) a)
         = inl (ParseError pe)) ∨
  (∃ loc errors, fst (read_data (rekey f (get_dict_object_of_adapter g)) a)
                 = inl (ValidationError loc errors)).
Proof.
  destruct (fst (read_data (rekey f (get_dict_object_of_adapter g)) a))
    as [e|[]] eqn:H; [|by left].
  right. apply read_data_raised_by in H as [k Hk].
  destruct Hk as [[_ Habsent]|[(pe & -> & _)|(loc & errors & -> & _)]].
  - by destruct k.
  - left. by exists pe.
  - right. by exists loc, errors.
Qed.

(** ** What a load reads and writes of the adapter *)

Lemma keys_drop_cons (m : nat) (k : Key) (rest : list Key) :
  drop m keys = k :: rest → keys !! m = Some k ∧ drop (S m) keys = rest.
Proof.
  intros H. split.
  - assert (drop m keys !! 0%nat = Some k) as H0 by (by rewrite H).
    rewrite lookup_drop in H0. by rewrite Nat.add_0_r in H0.
  - assert (drop 1 (drop m keys) = rest) as H1 by (by rewrite H).
    rewrite drop_drop in H1. by rewrite Nat.add_comm in H1.
Qed.

Ltac nth_key i Hi :=
  unfold keys in Hi;
  repeat (destruct i as [|i]; simpl in Hi; try discriminate Hi).

Ltac open_statement :=
  unfold load_section, bind, eval, getitem,
    set_seed, set_time_model_data, set_queue_data, plain_setattr,
    set_state_data, set_process_data, set_resource_data,
    set_material_data, set_sink_data, set_source_data, validated_setattr.

Lemma validate_each_ext {T} (check check' : T → ValueError + T)
    (i : nat) (v : list T) :
  (∀ x, check x = check' x) →
  validate_each check i v = validate_each check' i v.
Proof.
  intros H. revert i. induction v as [|x v IH]; intros i; simpl; [done|].
  by rewrite IH, H.
Qed.

Lemma statement_untouched {K} (data : Document K) (i : nat) (k : Key) s :
  keys !! i = Some k → untouched_from (S i) s (snd (statement data k s)).
Proof.
  intros Hi. destruct k; nth_key i Hi; clear Hi; simpl; open_statement;
    repeat case_match; simpl; unfold untouched_from; simpl;
    split_and!; intros; (done || lia).
Qed.

Lemma untouched_from_refl (n : nat) a : untouched_from n a a.
Proof. unfold untouched_from. by split_and!. Qed.

Lemma untouched_from_trans (n m : nat) a s s' :
  (n ≤ m)%nat → untouched_from n a s → untouched_from m s s' →
  untouched_from m a s'.
Proof.
  unfold untouched_from.
  intros Hnm (? & ? & ? & ? & ? & ? & ? & ? & ? & ? & ?)
    (? & ? & ? & ? & ? & ? & ? & ? & ? & ? & ?).
  split_and!; intros;
    first [ congruence
          | match goal with
            | HB : _ → ?f s' = ?f s, HA : _ → ?f s = ?f a |- ?f s' = ?f a =>
                rewrite HB, HA by lia; done
            end ].
Qed.

Lemma run_untouched {K} (data : Document K) (kb rest : list Key) (m : nat) a :
  drop m keys = kb ++ rest →
  untouched_from (m + length kb) a (snd (run (statement data <$> kb) a)).
Proof.
  revert m a. induction kb as [|k kb IH]; intros m a Hm.
  - apply untouched_from_refl.
  - simpl app in Hm. apply keys_drop_cons in Hm as [Hk Hm].
    rewrite fmap_cons, run_cons.
    pose proof (statement_untouched data m k a Hk) as Hstep.
    destruct (statement data k a) as [[e|[]] a1] eqn:Hc; simpl in *.
    + pose proof (statement_raises data k a e) as Hraise.
      rewrite Hc in Hraise. destruct (Hraise eq_refl) as [_ Ha1].
      simpl in Ha1. subst a1. apply untouched_from_refl.
    + apply (untouched_from_trans (S m) _ a a1); [lia | done |].
      replace (m + S (length kb))%nat with (S m + length kb)%nat by lia.
      by apply IH.
Qed.

(** X8: when [read_data] raises, the error is that of the first statement
    that raises, and the load is left half done: the adapter keeps what the
    statements before that one assigned, while the field of the failing
    statement, the fields of the statements after it, [valid_configuration]
    and [reconfiguration_cost] still hold what they held before the call. *)
Theorem read_data_stops_at_first_raise {K} (data : Document K) a e :
  fst (read_data data a) = inl e →
  ∃ before k after s,
    keys = before ++ k :: after ∧
    run (statement data <$> before) a = (inr tt, s) ∧
    fst (statement data k s) = inl e ∧
    snd (read_data data a) = s ∧
    untouched_from (length before) a s.
Proof.
  rewrite read_data_run. intros H.
  destruct (run_failure_inv _ _ _ H) as (cb & c & ca & s & Hks & Hb & He & Hr).
  destruct (fmap_statement_split _ _ _ _ _ Hks) as (kb & k & ka & Hkeys & -> & -> & ->).
  exists kb, k, ka, s. split_and!; [done..| |].
  - rewrite Hr. simpl. by apply (statement_raises data k s e).
  - pose proof (run_untouched data kb (k :: ka) 0 a Hkeys) as Hu.
    by rewrite Hb in Hu.
Qed.

(** X9: [read_data] writes no field but the seed and the eight collections,
    and [get_dict_object_of_adapter] reads no other: [reconfiguration_cost]
    comes out of a load as it went in, in every outcome, and two adapters
    with the same seed and collections dump the same document, so the cost
    is not carried through a dump and a load. *)
Theorem reconfiguration_cost_not_saved {K} (data : Document K) a :
  reconfiguration_cost (snd (read_data data a)) = reconfiguration_cost a ∧
  ∀ g g', same_graph g g' →
          get_dict_object_of_adapter g' = get_dict_object_of_adapter g.
Proof.
  split.
  - rewrite read_data_run.
    by destruct (run_untouched data keys [] 0 a) as (_ & Hcost & _);
      [by rewrite app_nil_r|].
  - intros g g' [Hseed Htm Hst Hpr Hqu Hre Hma Hsi Hso].
    unfold get_dict_object_of_adapter.
    by rewrite Hseed, Htm, Hst, Hpr, Hqu, Hre, Hma, Hsi, Hso.
Qed.

Lemma statement_agree {K} (data : Document K) (i : nat) (k : Key) s s' :
  keys !! i = Some k → agree i s s' →
  fst (statement data k s) = fst (statement data k s') ∧
  (fst (statement data k s) = inr tt →
   agree (S i) (snd (statement data k s)) (snd (statement data k s'))).
Proof.
  intros Hi (H1 & H2 & H3 & H4 & H5 & H6 & H7 & H8 & H9).
  destruct k; nth_key i Hi; clear Hi; simpl; open_statement;
    repeat match goal with
    | H : (?n ≤ ?m)%nat → _ |- _ =>
        first [ specialize (H ltac:(lia)) | clear H ]
    end.
  all: repeat match goal with
    | |- context [match ?entry with Some _ => _ | None => _ end] =>
        destruct entry; simpl; [|by split]
    | |- context [create_objects_from_configuration_data ?T ?c] =>
        destruct (create_objects_from_configuration_data T c); simpl;
        [by split|]
    end.
  all: try (unfold agree; simpl; split; [done|]; intros _;
            split_and!; intros; (done || lia)).
  - rewrite (validate_each_ext (check_states s) (check_states s'))
      by (intros; rewrite !(check_states_report _ s'); done).
    destruct (validate_each _ 0 _) as [[|err errors] result]; simpl;
      (split; [done|]); [|done]. intros _.
    unfold agree; simpl. split_and!; intros; (done || lia).
  - rewrite (validate_each_ext (check_processes s) (check_processes s'))
      by (intros; rewrite !(check_processes_report _ s'); done).
    destruct (validate_each _ 0 _) as [[|err errors] result]; simpl;
      (split; [done|]); [|done]. intros _.
    unfold agree; simpl. split_and!; intros; (done || lia).
  - rewrite (validate_each_ext (check_resources s) (check_resources s'))
      by (intros; rewrite !(check_resources_report _ s'); done).
    destruct (validate_each _ 0 _) as [[|err errors] result]; simpl;
      (split; [done|]); [|done]. intros _.
    unfold agree; simpl. split_and!; intros; (done || lia).
  - rewrite (validate_each_ext (check_materials s) (check_materials s'))
      by (intros; rewrite !(check_materials_report _ s'); done).
    destruct (validate_each _ 0 _) as [[|err errors] result]; simpl;
      (split; [done|]); [|done]. intros _.
    unfold agree; simpl. split_and!; intros; (done || lia).
  - rewrite (validate_each_ext (check_sinks s) (check_sinks s'))
      by (intros; rewrite !(check_sinks_report _ s'); done).
    destruct (validate_each _ 0 _) as [[|err errors] result]; simpl;
      (split; [done|]); [|done]. intros _.
    unfold agree; simpl. split_and!; intros; (done || lia).
  - rewrite (validate_each_ext (check_sources s) (check_sources s'))
      by (intros; rewrite !(check_sources_report _ s'); done).
    destruct (validate_each _ 0 _) as [[|err errors] result]; simpl;
      (split; [done|]); [|done]. intros _.
    unfold agree; simpl. split_and!; intros; (done || lia).
Qed.

Lemma run_agree {K} (data : Document K) (kb rest : list Key) (m : nat) s s' :
  drop m keys = kb ++ rest → agree m s s' →
  fst (run (statement data <$> kb) s) = fst (run (statement data <$> kb) s') ∧
  (fst (run (statement data <$> kb) s) = inr tt →
   agree (m + length kb) (snd (run (statement data <$> kb) s))
                         (snd (run (statement data <$> kb) s'))).
Proof.
  revert m s s'. induction kb as [|k kb IH]; intros m s s' Hm Hagree.
  - simpl. split; [done|]. intros _. by rewrite Nat.add_0_r.
  - simpl app in Hm. apply keys_drop_cons in Hm as [Hk Hm].
    rewrite !fmap_cons, !run_cons.
    destruct (statement_agree data m k s s' Hk Hagree) as [Hfst Hnext].
    destruct (statement data k s) as [[e|[]] s1],
      (statement data k s') as [[e'|[]] s1']; simpl in *; try done.
    replace (m + S (length kb))%nat with (S m + length kb)%nat by lia.
    apply IH; [done | by apply Hnext].
Qed.

(** X10: what [read_data] does with a document does not depend on what the
    adapter held before: from any two adapters it gives the same outcome,
    the same error included, and on success the same seed and collections. *)
Theorem read_data_independent_of_adapter {K} (data : Document K) a a' :
  fst (read_data data a) = fst (read_data data a') ∧
  (fst (read_data data a) = inr tt →
   same_graph (snd (read_data data a)) (snd (read_data data a'))).
Proof.
  rewrite !read_data_run.
  destruct (run_agree data keys [] 0 a a') as [Hfst Hagree];
    [by rewrite app_nil_r | unfold agree; split_and!; lia |].
  split; [done|]. intros Hok.
  destruct (Hagree Hok) as (H1 & H2 & H3 & H4 & H5 & H6 & H7 & H8 & H9).
  simpl in *. constructor; symmetry; auto with lia.
Qed.

(** ** The validators one by one *)

Lemma report_Some g (o : Entity) e :
  report g o = Some e →
  owner_kind e = entity_kind o ∧ owner_ID e = entity_ID o ∧ ref e ∉ valid_IDs e.
Proof.
  unfold report. destruct (first_dangling g (references o)) as [r|] eqn:E; [|done].
  intros [= <-]. by destruct (first_dangling_Some _ _ _ E) as (_ & _ & _ & Hd & _).
Qed.

Lemma outcome_sound {T} `{!Model Raw DecodeError T} g (view : T → Entity)
    (kind : string) (check : T → ValueError + T) :
  (∀ x, check x = outcome (report g (view x)) x) →
  (∀ x, entity_kind (view x) = kind ∧ entity_ID (view x) = ID x) →
  sound_validator kind check.
Proof.
  intros Hcheck Hview x. rewrite Hcheck.
  destruct (report g (view x)) as [e|] eqn:E; simpl; [|done].
  destruct (report_Some _ _ _ E) as (-> & -> & Href).
  by destruct (Hview x) as [-> ->].
Qed.

(** X11: each of the six validators either returns the entity it was given,
    unchanged, or raises an error that names that very entity (its kind and
    its ID) and a reference that is indeed missing from the set of valid IDs
    the error reports. *)
Theorem validators_sound values :
  sound_validator "state" (check_states values) ∧
  sound_validator "process" (check_processes values) ∧
  sound_validator "resource" (check_resources values) ∧
  sound_validator "material" (check_materials values) ∧
  sound_validator "sink" (check_sinks values) ∧
  sound_validator "source" (check_sources values).
Proof.
  split_and!.
  - apply (outcome_sound values state_entity); [|done].
    intros. by apply check_states_report.
  - apply (outcome_sound values process_entity); [|done].
    intros. by apply check_processes_report.
  - apply (outcome_sound values resource_entity); [|done].
    intros. by apply check_resources_report.
  - apply (outcome_sound values material_entity); [|done].
    intros. by apply check_materials_report.
  - apply (outcome_sound values sink_entity); [|done].
    intros. by apply check_sinks_report.
  - apply (outcome_sound values source_entity); [|done].
    intros. by apply check_sources_report.
Qed.

(** X12: the validators check the reference fields in a fixed order and
    raise at the first ID that is missing: processes, then states, then
    input and output queues for a resource; the transport process, then the
    listed processes for a material; the material type, then the queues for
    a sink; the time model, then the material type, then the queues for a
    source.  Each validator's result is the error of the first dangling
    reference of the entity in that order, or the entity when there is
    none. *)
Theorem validators_follow_table values :
  (∀ x, check_states values x = outcome (report values (state_entity x)) x) ∧
  (∀ x, check_processes values x = outcome (report values (process_entity x)) x) ∧
  (∀ x, check_resources values x = outcome (report values (resource_entity x)) x) ∧
  (∀ x, check_materials values x = outcome (report values (material_entity x)) x) ∧
  (∀ x, check_sinks values x = outcome (report values (sink_entity x)) x) ∧
  (∀ x, check_sources values x = outcome (report values (source_entity x)) x).
Proof.
  split_and!; intros x.
  - by apply check_states_report.
  - by apply check_processes_report.
  - by apply check_resources_report.
  - by apply check_materials_report.
  - by apply check_sinks_report.
  - by apply check_sources_report.
Qed.

(** ** ID sets and positional keys *)

Lemma size_list_to_set_le (l : list string) :
  (size (list_to_set l : gset string) ≤ length l)%nat ∧
  (size (list_to_set l : gset string) = length l ↔ NoDup l).
Proof.
  induction l as [|x l [IHle IHeq]].
  - split; [done|]. split; [constructor | done].
  - rewrite list_to_set_cons, NoDup_cons. cbn [length].
    set (X := list_to_set l : gset string) in *.
    destruct (decide (x ∈ X)) as [Hin|Hout].
    + assert ({[x]} ∪ X = X) as ->
        by (by apply subseteq_union_1_L, singleton_subseteq_l).
      split; [lia|]. split; [lia|]. intros [Hx _]. exfalso. apply Hx.
      by apply elem_of_list_to_set in Hin.
    + rewrite size_union by (by apply disjoint_singleton_l).
      rewrite size_singleton.
      split; [lia|]. rewrite <- IHeq. split; [|lia].
      intros H. split; [|lia]. intros Hx. apply Hout.
      by apply elem_of_list_to_set.
Qed.

(** X13: the set [get_set_of_IDs] builds never has more elements than the
    collection has entities, and it has as many exactly when no two entities
    of the collection share an ID. *)
Theorem get_set_of_IDs_size {T} `{!Model Raw DecodeError T} (collection : list T) :
  (size (get_set_of_IDs collection) ≤ length collection)%nat ∧
  (size (get_set_of_IDs collection) = length collection ↔
   NoDup (ID <$> collection)).
Proof.
  unfold get_set_of_IDs.
  destruct (size_list_to_set_le (ID <$> collection)) as [Hle Heq].
  rewrite length_fmap in Hle, Heq. by split.
Qed.

(** X14: [get_dict_of_list_objects] keys the entities by their position,
    counting from 0: the keys are 0, 1, ..., n-1, all different, so no
    entity is lost to a key collision, and under key [i] is the [.dict()] of
    the [i]-th entity. *)
Theorem get_dict_of_list_objects_positions {T} `{!Model Raw DecodeError T}
    (values : list T) :
  fst <$> get_dict_of_list_objects values = seq 0 (length values) ∧
  snd <$> get_dict_of_list_objects values = dict <$> values ∧
  NoDup (fst <$> get_dict_of_list_objects values) ∧
  ∀ i, get_dict_of_list_objects values !! i
       = ((λ x, (i, dict x)) <$> values !! i).
Proof.
  unfold get_dict_of_list_objects.
  assert (fst <$> imap (λ counter data, (counter, dict data)) values
          = seq 0 (length values)) as Hkeys.
  { apply list_eq. intros i. rewrite list_lookup_fmap, list_lookup_imap.
    destruct (values !! i) as [x|] eqn:E; simpl.
    - rewrite lookup_seq_lt; [done|]. by eapply lookup_lt_Some.
    - rewrite lookup_seq_ge; [done|]. by apply lookup_ge_None. }
  split_and!.
  - done.
  - apply list_eq. intros i.
    rewrite !list_lookup_fmap, list_lookup_imap. by destruct (values !! i).
  - rewrite Hkeys. apply NoDup_seq.
  - intros i. by rewrite list_lookup_imap.
Qed.

(** ** Growing the collections *)

Lemma clean_monotone values values' (o : Entity) :
  (∀ c, IDs_of values c ⊆ IDs_of values' c) → clean values o → clean values' o.
Proof.
  intros Hsub Hclean. unfold clean in *.
  eapply Forall_impl; [exact Hclean|]. intros r Hr Hd. apply Hr.
  unfold dangling in *. intros Hin. apply Hd. by apply Hsub.
Qed.

Lemma accepted_monotone {T} values values' (view : T → Entity)
    (check check' : T → ValueError + T) (x : T) :
  (∀ c, IDs_of values c ⊆ IDs_of values' c) →
  check x = outcome (report values (view x)) x →
  check' x = outcome (report values' (view x)) x →
  check x = inr x → check' x = inr x.
Proof.
  intros Hsub -> ->. rewrite !outcome_inr, !report_None.
  by apply clean_monotone.
Qed.

(** X17: entities that a validator accepts stay accepted when the
    collections they refer to grow: if every ID set of [values] is included
    in the corresponding ID set of [values'], whatever passes a validator
    against [values] passes it against [values']. *)
Theorem validators_monotone values values' :
  (∀ c, IDs_of values c ⊆ IDs_of values' c) →
  (∀ x, check_states values x = inr x → check_states values' x = inr x) ∧
  (∀ x, check_processes values x = inr x → check_processes values' x = inr x) ∧
  (∀ x, check_resources values x = inr x → check_resources values' x = inr x) ∧
  (∀ x, check_materials values x = inr x → check_materials values' x = inr x) ∧
  (∀ x, check_sinks values x = inr x → check_sinks values' x = inr x) ∧
  (∀ x, check_sources values x = inr x → check_sources values' x = inr x).
Proof.
  intros Hsub. split_and!; intros x.
  - apply (accepted_monotone values values' state_entity); [done|..];
      by apply check_states_report.
  - apply (accepted_monotone values values' process_entity); [done|..];
      by apply check_processes_report.
  - apply (accepted_monotone values values' resource_entity); [done|..];
      by apply check_resources_report.
  - apply (accepted_monotone values values' material_entity); [done|..];
      by apply check_materials_report.
  - apply (accepted_monotone values values' sink_entity); [done|..];
      by apply check_sinks_report.
  - apply (accepted_monotone values values' source_entity); [done|..];
      by apply check_sources_report.
Qed.

(** ** Load, dump, load *)

(** X18: dumping a freshly loaded adapter and loading the dump gives the
    same result as the first load, provided the loaded entities decode back
    from their own [.dict()]; the record keys of the original document are
    replaced by positions on the way and make no difference. *)
Theorem load_dump_load {K K'} (f : nat → K') (data : Document K) a :
  fst (read_data data a) = inr tt →
  reparses (snd (read_data data a)) →
  read_data (rekey f (get_dict_object_of_adapter (snd (read_data data a)))) a
  = read_data data a.
Proof.
  intros Hok Hreparse.
  pose proof (read_data_success_graph data a Hok) as (g & Hg & Hresolve).
  apply references_resolve_verdict in Hresolve.
  destruct (read_data_decodes data g a Hg) as [Hv Hs].
  unfold verdict in Hv. rewrite Hresolve in Hv. specialize (Hs Hresolve).
  destruct (read_data data a) as [res g0]. simpl in *. subst res g0.
  assert (first_failure (install g a) (table (install g a)) = None) as Hresolve'.
  { apply references_resolve_verdict.
    apply (references_resolve_same g); [apply same_graph_install|].
    by apply references_resolve_verdict. }
  destruct (read_data_decodes _ (install g a) a (decodes_dump f _ Hreparse))
    as [Hv' Hs'].
  unfold verdict in Hv'. rewrite Hresolve' in Hv'. specialize (Hs' Hresolve').
  destruct (read_data _ a) as [res g1]. simpl in *. by subst.
Qed.

End MoreProperties.

(** ** Objects by class name *)

Section TypedProperties.
Context `{ds : DataStructures}.
Variable update_type : string → Raw → Raw.

Lemma create_objects_app {K} (T : Type) `{!Model Raw DecodeError T}
    (c c' : list (K * Raw)) :
  create_objects_from_configuration_data T (c ++ c') =
    match create_objects_from_configuration_data T c with
    | inl e => inl e
    | inr objects =>
        match create_objects_from_configuration_data T c' with
        | inl e => inl e
        | inr objects' => inr (objects ++ objects')
        end
    end.
Proof.
  induction c as [|[k v] c IH]; simpl.
  - by destruct (create_objects_from_configuration_data T c').
  - destruct (parse_obj_as T v); [done|]. rewrite IH.
    destruct (create_objects_from_configuration_data T c); [done|].
    by destruct (create_objects_from_configuration_data T c').
Qed.

Lemma create_typed_items_objects {K} (T : Type) `{!Model Raw DecodeError T}
    (cls_name : string) (items : list (K * Raw)) :
  fst (create_typed_items update_type T cls_name items) =
    create_objects_from_configuration_data T
      (prod_map id (update_type cls_name) <$> items).
Proof.
  induction items as [|[k v] items IH]; simpl in *; [done|].
  destruct (parse_obj_as T (update_type cls_name v)); [done|].
  destruct (create_typed_items update_type T cls_name items) as [r rest].
  simpl in *. unfold fmap in IH. by rewrite <- IH.
Qed.

(** X15: [create_typed_object_from_configuration_data] gives the objects
    that [create_objects_from_configuration_data] gives for the records of
    all classes taken together, class after class in document order, each
    record with its class name written into it; it raises the decoding
    error of the first record that fails. *)
Theorem create_typed_object_flattens {K} (T : Type) `{!Model Raw DecodeError T}
    (configuration_data : list (string * list (K * Raw))) :
  fst (create_typed_object_from_configuration_data update_type T configuration_data)
  = create_objects_from_configuration_data T
      (all_records (typed update_type configuration_data)).
Proof.
  unfold all_records, typed.
  induction configuration_data as [|[cls items] rest IH]; [done|].
  rewrite !fmap_cons, concat_cons. cbn [fst snd].
  rewrite create_objects_app, <- create_typed_items_objects, <- IH.
  cbn [create_typed_object_from_configuration_data].
  destruct (create_typed_items update_type T cls items) as [[e|objects] items'];
    simpl; [done|].
  by destruct (create_typed_object_from_configuration_data update_type T rest)
    as [[e|objects'] rest'].
Qed.

Lemma create_typed_items_records {K} (T : Type) `{!Model Raw DecodeError T}
    (cls_name : string) (items : list (K * Raw)) :
  Forall2 (λ kv kv', kv'.1 = kv.1 ∧
                     (kv'.2 = kv.2 ∨ kv'.2 = update_type cls_name kv.2))
    items (snd (create_typed_items update_type T cls_name items)) ∧
  (∀ objects,
     fst (create_typed_items update_type T cls_name items) = inr objects →
     snd (create_typed_items update_type T cls_name items)
     = (prod_map id (update_type cls_name) <$> items)).
Proof.
  induction items as [|[k v] items [IHshape IHok]]; simpl.
  - split; [constructor | done].
  - destruct (parse_obj_as T (update_type cls_name v)) as [e|obj]; simpl.
    + split; [|done]. constructor; [by split; [|right]|].
      apply Forall_Forall2_diag, Forall_forall. intros kv _. by split; [|left].
    + destruct (create_typed_items update_type T cls_name items)
        as [[e|objects] rest]; simpl in *.
      * split; [|done]. constructor; [by split; [|right] | done].
      * split; [constructor; [by split; [|right] | done]|].
        intros _ _. f_equal. by apply (IHok objects).
Qed.

(** X16: [create_typed_object_from_configuration_data] writes into the
    caller's document: when it returns, every record carries the name of
    its class.  In every outcome the class names and the record keys are as
    they were and each record is either as it was or has its class name
    written into it. *)
Theorem create_typed_object_marks_records {K} (T : Type)
    `{!Model Raw DecodeError T}
    (configuration_data : list (string * list (K * Raw))) :
  let result :=
    create_typed_object_from_configuration_data update_type T configuration_data in
  (∀ objects, fst result = inr objects →
              snd result = typed update_type configuration_data) ∧
  Forall2 (λ section section',
             section'.1 = section.1 ∧
             Forall2 (λ kv kv', kv'.1 = kv.1 ∧
                                (kv'.2 = kv.2 ∨
                                 kv'.2 = update_type section.1 kv.2))
               section.2 section'.2)
    configuration_data (snd result).
Proof.
  unfold typed.
  induction configuration_data as [|[cls items] rest [IHok IHshape]]; simpl.
  - split; [done | constructor].
  - destruct (create_typed_items_records T cls items) as [Hshape Hok].
    destruct (create_typed_items update_type T cls items)
      as [[e|objects] items']; simpl in *.
    + split; [done|]. constructor; [by split|].
      apply Forall_Forall2_diag, Forall_forall. intros section _.
      split; [done|]. apply Forall_Forall2_diag, Forall_forall.
      intros kv _. by split; [|left].
    + destruct (create_typed_object_from_configuration_data update_type T rest)
        as [[e|objects'] rest']; simpl in *.
      * split; [done|]. by constructor.
      * split; [|by constructor].
        intros _ _. f_equal; [|by apply (IHok objects')].
        f_equal. by apply (Hok objects).
Qed.

End TypedProperties.

(** * Worked documents

    The theorems at the documents of [Sample]. *)

Import Sample.

Lemma read_data_references_resolve_witness :
  fst (read_data scenario JsonAdapter) = inr tt ∧
  references_resolve (snd (read_data scenario JsonAdapter)).
Proof.
  split; [reflexivity|].
  apply (read_data_references_resolve scenario JsonAdapter).
  reflexivity.
Defined.

Lemma decodes_two_dangling :
  decodes two_dangling two_dangling_graph.
Proof. constructor; reflexivity. Qed.

Lemma two_dangling_unresolved : ¬ references_resolve two_dangling_graph.
Proof. rewrite references_resolve_verdict. discriminate. Qed.

(** At [two_dangling], [read_data] raises for the state collection alone:
    the one error names state [s1] and [tmA]. *)
Example read_data_two_dangling :
  fst (read_data two_dangling JsonAdapter) =
    inl (ValidationError "state_data"
           [(0, {| ref_name := "time model"; ref := "tmA";
                   owner_kind := "state"; owner_ID := "s1";
                   valid_kind := "time model"; valid_IDs := {["tm1"]} |})]).
Proof. reflexivity. Qed.

(** C2 fails as stated: in [two_dangling], process [p1] declares the time
    model [tmB], which no time model has, yet the error [read_data] raises
    does not name [p1], its field or [tmB]. *)
Lemma later_dangling_reference_not_named :
  decodes two_dangling two_dangling_graph ∧
  ("process_data", [p1_entity]) ∈ table two_dangling_graph ∧
  p1_reference ∈ references p1_entity ∧
  dangling two_dangling_graph p1_reference ∧
  ¬ ∃ exc, fst (read_data two_dangling JsonAdapter) = inl exc ∧
           names exc p1_entity p1_reference.
Proof.
  split_and!.
  - apply decodes_two_dangling.
  - unfold table. right. by left.
  - by left.
  - unfold dangling; simpl. by apply (bool_decide_unpack _).
  - intros (exc & Hexc & loc & errors & i & e & -> & He & _ & Hid & _).
    rewrite read_data_two_dangling in Hexc. injection Hexc as <- <-.
    apply list_elem_of_singleton in He. injection He as _ ->.
    discriminate Hid.
Qed.

Lemma first_dangling_reference_reported_witness :
  ∃ loc i owner r errors,
    fst (read_data two_dangling JsonAdapter) =
      inl (ValidationError loc
             ((i, dangling_reference two_dangling_graph owner r) :: errors)) ∧
    first_dangling_at two_dangling_graph loc i owner r.
Proof.
  apply (first_dangling_reference_reported two_dangling
           two_dangling_graph JsonAdapter).
  - constructor; reflexivity.
  - rewrite references_resolve_verdict. discriminate.
Defined.

(** The dumped sections are keyed by position, from 0. *)
Example get_dict_of_list_objects_keys :
  fst <$> get_dict_of_list_objects (material_data plant) = [0; 1; 2].
Proof. reflexivity. Qed.

Example get_dict_of_list_objects_m2 :
  get_dict_of_list_objects (material_data plant) !! 1 =
    Some (1, [("ID", JString "m2"); ("transport_process", JString "p1")]).
Proof. reflexivity. Qed.

Lemma dump_load_roundtrip_witness :
  ∃ g', read_data (rekey id (get_dict_object_of_adapter plant)) JsonAdapter
          = (inr tt, g') ∧
        same_graph plant g'.
Proof.
  apply (dump_load_roundtrip id plant JsonAdapter).
  - rewrite references_resolve_verdict. reflexivity.
  - constructor; repeat constructor.
Defined.

Lemma material_optional_processes_witness :
  check_materials plant m2 = inr m2 ∧
  check_materials plant m3 = inr m3 ∧
  (∃ e, check_materials plant m4 = inl e) ∧
  (∃ e, check_materials plant m5 = inl e).
Proof.
  split_and!.
  - destruct (material_optional_processes plant m2) as [_ H].
    destruct H as (H & _ & _); [by apply (bool_decide_unpack _)|].
    by apply H.
  - destruct (material_optional_processes plant m3) as [_ H].
    destruct H as (_ & H & _); [by apply (bool_decide_unpack _)|].
    by apply H.
  - destruct (material_optional_processes plant m4) as [_ H].
    destruct H as (_ & _ & H); [by apply (bool_decide_unpack _)|].
    destruct (H ["p1"; "missing"] "missing") as (y' & _ & _ & Hy');
      [reflexivity | by right; left | by apply (bool_decide_unpack _) |].
    eexists. exact Hy'.
  - destruct (material_optional_processes plant m5) as [H _].
    eexists. apply H. by apply (bool_decide_unpack _).
Defined.

Lemma resolves_plant_p1 :
  resolves (process_data plant) "p1".
Proof. eexists. split; [by left | reflexivity]. Qed.

Lemma resolves_plant_s1 :
  resolves (state_data plant) "s1".
Proof. eexists. split; [by left | reflexivity]. Qed.

Lemma resource_variant_dispatch_witness :
  check_resources plant r2 = inr r2 ∧
  check_resources (with_queue_data [] plant) r2 = inr r2 ∧
  check_resources plant r1 = inr r1 ∧
  ∃ e, check_resources (with_queue_data [] plant) r1 = inl e.
Proof.
  destruct (resource_variant_dispatch plant r2) as (H2 & _ & _).
  destruct (H2 eq_refl) as [H2ok H2queues].
  assert (check_resources plant r2 = inr r2) as Hr2.
  { apply H2ok. split; intros y Hy.
    - apply list_elem_of_singleton in Hy as ->. apply resolves_plant_p1.
    - inversion Hy. }
  split_and!.
  - exact Hr2.
  - by rewrite H2queues.
  - destruct (resource_variant_dispatch plant r1) as (_ & H1 & _).
    apply (H1 ["q1"] ["q2"] eq_refl). split_and!; intros y Hy.
    + apply list_elem_of_singleton in Hy as ->. apply resolves_plant_p1.
    + apply list_elem_of_singleton in Hy as ->. apply resolves_plant_s1.
    + apply elem_of_cons in Hy as [->|Hy];
        [eexists; split; [by left | reflexivity]|].
      apply list_elem_of_singleton in Hy as ->.
      eexists; split; [by right; left | reflexivity].
  - destruct (resource_variant_dispatch (with_queue_data [] plant) r1)
      as (_ & _ & H). apply H. discriminate.
Defined.

(** C6 fails as stated: [duplicate_ids] has two time-model records with ID
    [tm1]; [read_data] succeeds and the time-model collection then holds two
    entities with that ID. *)
Lemma duplicate_IDs_both_loaded :
  doc_time_model_IDs duplicate_ids = Some ["tm1"; "tm1"] ∧
  fst (read_data duplicate_ids JsonAdapter) = inr tt ∧
  ID <$> time_model_data (snd (read_data duplicate_ids JsonAdapter))
    = ["tm1"; "tm1"].
Proof. split_and!; reflexivity. Qed.

Lemma load_keeps_every_record_witness :
  read_data duplicate_ids JsonAdapter =
    (inr tt, install duplicate_ids_graph JsonAdapter) ∧
  one_entity_per_record duplicate_ids
    (install duplicate_ids_graph JsonAdapter).
Proof.
  apply (load_keeps_every_record duplicate_ids
           duplicate_ids_graph JsonAdapter).
  - constructor; reflexivity.
  - rewrite references_resolve_verdict. reflexivity.
Defined.

(** C7 fails as stated: [tm2_without_sources] lacks the key ["sources"], and
    [read_data] raises the validation error of the state collection, not a
    missing-section error. *)
Lemma missing_sources_other_error :
  absent tm2_without_sources KSources ∧
  (∃ errors, fst (read_data tm2_without_sources JsonAdapter) =
               inl (ValidationError "state_data" errors)) ∧
  ¬ ∃ key, fst (read_data tm2_without_sources JsonAdapter) =
             inl (KeyError key).
Proof.
  split_and!.
  - reflexivity.
  - eexists. reflexivity.
  - intros [key H]. discriminate H.
Qed.

Lemma missing_section_fails_witness :
  absent scenario_without_sources KSources ∧
  (∃ e, fst (read_data scenario_without_sources JsonAdapter) = inl e) ∧
  read_data scenario_without_sources JsonAdapter =
    (inl (KeyError "sources"), install scenario_graph JsonAdapter).
Proof.
  destruct (missing_section_fails scenario_without_sources KSources
              JsonAdapter eq_refl) as [Hfails Hkey].
  split_and!; [reflexivity | exact Hfails |].
  apply (Hkey [KSeed; KTimeModels; KStates; KProcesses; KQueues;
               KResources; KMaterials; KSinks] []); reflexivity.
Defined.

(** C8 fails as stated: the flag of a fresh adapter, on which nothing has
    been validated, is already true, and it is still true after a load that
    the validators rejected. *)
Lemma flag_true_without_validation :
  valid_configuration (JsonAdapter (ds := data_structures)) = true ∧
  (∃ errors, fst (read_data scenario_tm2 JsonAdapter) =
               inl (ValidationError "state_data" errors)) ∧
  valid_configuration (snd (read_data scenario_tm2 JsonAdapter)) = true.
Proof.
  split_and!; [reflexivity | eexists; reflexivity | reflexivity].
Qed.

Lemma assignment_revalidates_witness :
  fst (read_data scenario JsonAdapter) = inr tt ∧
  set_state_data [s1_tm2] loaded_scenario =
    (inl (ValidationError "state_data"
            [(0, {| ref_name := "time model"; ref := "tm2";
                    owner_kind := "state"; owner_ID := "s1";
                    valid_kind := "time model";
                    valid_IDs := get_set_of_IDs (time_model_data loaded_scenario) |})]),
     loaded_scenario).
Proof.
  split; [reflexivity|].
  destruct (assignment_revalidates loaded_scenario)
    as (_ & _ & _ & _ & _ & _ & _ & H).
  apply (H s1_tm2);
    [by apply (bool_decide_unpack _) | reflexivity | reflexivity].
Defined.

Lemma assignment_skips_dependents_witness :
  references_resolve loaded_scenario ∧
  set_time_model_data [] loaded_scenario =
    (inr tt, with_time_model_data [] loaded_scenario) ∧
  valid_configuration (with_time_model_data [] loaded_scenario) = true ∧
  ¬ references_resolve (with_time_model_data [] loaded_scenario) ∧
  set_process_data [] plant = (inr tt, with_process_data [] plant) ∧
  ¬ references_resolve (with_process_data [] plant).
Proof.
  destruct (assignment_skips_dependents loaded_scenario) as (Htm & _).
  destruct (Htm []) as (Hset & Hflag & Hstates & _).
  destruct (assignment_skips_dependents plant) as (_ & _ & Hpr & _).
  destruct (Hpr []) as (Hset' & _ & _ & Hmaterials);
    [intros p Hp; inversion Hp|].
  split_and!.
  - rewrite references_resolve_verdict. reflexivity.
  - exact Hset.
  - exact Hflag.
  - apply (Hstates {| st_ID := "s1"; st_time_model_id := "tm1" |});
      [by left|]. intros (x & Hx & _). inversion Hx.
  - exact Hset'.
  - apply (Hmaterials m1); [by left|]. intros (x & Hx & _). inversion Hx.
Defined.

(** ** The further properties at the documents of [Sample] *)


Lemma read_data_idempotent_witness :
  fst (read_data scenario JsonAdapter) = inr tt ∧
  read_data scenario loaded_scenario = (inr tt, loaded_scenario).
Proof.
  split; [reflexivity|].
  apply (read_data_idempotent scenario JsonAdapter). reflexivity.
Defined.

Lemma reparses_plant_without_time_models : reparses plant_without_time_models.
Proof. constructor; repeat constructor. Qed.

Lemma load_dump_iff_witness :
  fst (read_data (rekey id (get_dict_object_of_adapter plant)) JsonAdapter)
    = inr tt ∧
  fst (read_data (rekey id (get_dict_object_of_adapter plant_without_time_models))
         JsonAdapter) ≠ inr tt.
Proof.
  split.
  - apply (load_dump_iff id plant JsonAdapter).
    + constructor; repeat constructor.
    + rewrite references_resolve_verdict. reflexivity.
  - intros H.
    apply (load_dump_iff id plant_without_time_models JsonAdapter) in H.
    + rewrite references_resolve_verdict in H. discriminate H.
    + constructor; repeat constructor.
Defined.

Lemma read_data_stops_at_first_raise_witness :
  ∃ before k after s,
    keys = before ++ k :: after ∧
    run (statement tm2_without_sources <$> before) plant = (inr tt, s) ∧
    fst (statement tm2_without_sources k s)
      = inl (ValidationError "state_data"
               [(0, {| ref_name := "time model"; ref := "tm2";
                       owner_kind := "state"; owner_ID := "s1";
                       valid_kind := "time model"; valid_IDs := {["tm1"]} |})]) ∧
    snd (read_data tm2_without_sources plant) = s ∧
    untouched_from (length before) plant s.
Proof.
  apply (read_data_stops_at_first_raise tm2_without_sources plant). reflexivity.
Defined.

(** The failed load of [tm2_without_sources] into [plant] has replaced the
    seed and the time models, and nothing else. *)
Example read_data_half_done :
  let s := snd (read_data tm2_without_sources plant) in
  seed s = 7%Z ∧ ID <$> time_model_data s = ["tm1"] ∧
  state_data s = state_data plant ∧ source_data s = source_data plant.
Proof. by split_and!. Qed.

(** The two resources of [plant], decoded from records without a
    discriminator, and the document as the call leaves it. *)
Example create_typed_resources :
  fst (create_typed_object_from_configuration_data set_type RESOURCE_DATA_UNION
         resources_by_class) = inr [r1; r2].
Proof. reflexivity. Qed.

Example create_typed_resources_document :
  snd (create_typed_object_from_configuration_data set_type RESOURCE_DATA_UNION
         resources_by_class) = typed set_type resources_by_class.
Proof. reflexivity. Qed.

(** Without the class name written into them the same records do not
    decode. *)
Example create_objects_untyped_resources :
  create_objects_from_configuration_data RESOURCE_DATA_UNION
    (all_records resources_by_class)
  = inl (ParseError {| category := "resource"; offending_field := "type";
                       declared_ID := Some "r1" |}).
Proof. reflexivity. Qed.

Lemma validators_monotone_witness :
  check_states scenario_graph {| st_ID := "s1"; st_time_model_id := "tm1" |}
    = inr {| st_ID := "s1"; st_time_model_id := "tm1" |} ∧
  check_states plant {| st_ID := "s1"; st_time_model_id := "tm1" |}
    = inr {| st_ID := "s1"; st_time_model_id := "tm1" |}.
Proof.
  split; [reflexivity|].
  destruct (validators_monotone scenario_graph plant) as [Hstates _].
  - intros c. destruct c; by apply (bool_decide_unpack _).
  - apply Hstates. reflexivity.
Defined.

Lemma load_dump_load_witness :
  fst (read_data scenario JsonAdapter) = inr tt ∧
  read_data (rekey id (get_dict_object_of_adapter loaded_scenario)) JsonAdapter
  = read_data scenario JsonAdapter.
Proof.
  split; [reflexivity|].
  apply (load_dump_load id scenario JsonAdapter); [reflexivity|].
  constructor; repeat constructor.
Defined.
